(** * reviewio: reviewer and creator rankings of a repository's pull requests

    A shallow embedding of [reviewio/cli.py].  The objects the hosting
    service's client hands over (pull requests, reviews, review requests,
    labels, users) are records holding the attributes the program reads.
    Python sets and dicts keyed by users are finite sets and finite maps;
    [datetime.now()] is a parameter; [click.echo] appends to an output log;
    an uncaught Python exception ends the run and is returned beside the log
    written so far. *)

From Stdlib Require Import ZArith QArith Sorted Ascii.
From stdpp Require Import gmap strings list fin_maps pretty.

#[local] Open Scope string_scope.
#[local] Open Scope Z_scope.

(** ** Data model *)

(** [NamedUser.NamedUser]: the aggregation key, identified by its login. *)
Record NamedUser := mkUser { login : string }.

(** [Team.Team]: the other kind of entry a review request can hold. *)
Record Team := mkTeam { slug : string }.

#[global] Instance NamedUser_eq_dec : EqDecision NamedUser.
Proof. solve_decision. Defined.

#[global] Instance NamedUser_countable : Countable NamedUser.
Proof.
  refine (inj_countable' login mkUser _).
  intros []; reflexivity.
Defined.

(** An entry of [get_review_requests()]; [isinstance(rev, NamedUser.NamedUser)]
    tells the two constructors apart. *)
Inductive Requested :=
| ReqUser (u : NamedUser)
| ReqTeam (t : Team).

(** [PullRequestReview]: [rev.user] and [rev.state]. *)
Record PullRequestReview := mkReview {
  user : NamedUser;
  state : string
}.

Record Label := mkLabel { name : string }.

(** A point in time, in microseconds (the resolution of [datetime]);
    [timedelta(days=n)] is a number of microseconds as well. *)
Definition datetime := Z.

Definition timedelta_days (n : Z) : Z := n * 86400 * 1000000.

(** [PullRequest]: the attributes and the results of the calls the program
    makes on it. *)
Record PullRequest := mkPull {
  pr_user : NamedUser;
  created_at : datetime;
  additions : Z;
  deletions : Z;
  labels : list Label;
  get_reviews : list PullRequestReview;
  get_review_requests : list Requested * list Requested
}.

(** [collections.Counter] keyed by users, and the plain dict
    [extract_reviewers] returns. *)
Abbreviation Counter := (gmap NamedUser Z).

(** ** Weights *)

Definition extract_complex (pull_request : PullRequest) : Z :=
  additions pull_request + deletions pull_request.

Definition extract_simple (pull_request : PullRequest) : Z := 1.

(** The choice [show] makes from [--weight-method]. *)
Definition select_weight (weight_method : string) : PullRequest → Z :=
  if String.eqb weight_method "simple" then extract_simple else extract_complex.

(** ** Reviewers of one pull request *)

Definition counted_state (s : string) : bool :=
  String.eqb s "APPROVED" || String.eqb s "REQUEST_CHANGES".

(** [[rev for rev in l if isinstance(rev, NamedUser.NamedUser)]] *)
Definition named_users (l : list Requested) : list NamedUser :=
  omap (λ r, match r with ReqUser u => Some u | ReqTeam _ => None end) l.

Definition review_authors (pull_request : PullRequest) : list NamedUser :=
  user <$> filter (λ rev, counted_state (state rev) = true) (get_reviews pull_request).

(** The three sets of [sources], in the order of the list. *)
Definition sources (pull_request : PullRequest) : list (gset NamedUser) :=
  [ list_to_set (review_authors pull_request);
    list_to_set (named_users (get_review_requests pull_request).1);
    list_to_set (named_users (get_review_requests pull_request).2) ].

(** [functools.reduce] without an initial value; on an empty list Python
    raises, which the three-element [sources] never meets. *)
Definition reduce {A} (f : A → A → A) (l : list A) : option A :=
  match l with
  | [] => None
  | x :: l' => Some (foldl f x l')
  end.

Definition reviewer_set (pull_request : PullRequest) : gset NamedUser :=
  default ∅ (reduce (∪) (sources pull_request)).

Definition extract_reviewers (pull_request : PullRequest)
    (extract_weight : PullRequest → Z) : Counter :=
  let points := extract_weight pull_request in
  gset_to_gmap points (reviewer_set pull_request).

(** ** Time filter *)

(** [pull_request.created_at > now - delta] *)
Definition younger_than_delta (now : datetime) (pull_request : PullRequest)
    (delta : Z) : bool :=
  bool_decide (created_at pull_request > now - delta).

(** [now] is the reading [datetime.now()] gives when the comparison is made. *)
Definition time_condition (now : datetime) (pull_request : PullRequest)
    (condition : string) : bool :=
  if String.eqb condition "all" then true
  else if String.eqb condition "week" then
    younger_than_delta now pull_request (timedelta_days 7)
  else if String.eqb condition "month" then
    younger_than_delta now pull_request (timedelta_days 31)
  else if String.eqb condition "year" then
    younger_than_delta now pull_request (timedelta_days 365)
  else false.

(** ** Filters of [show] *)

(** [[request for request in pull_requests if time_condition(request, younger_than)]];
    [now i] is the clock's reading when the pull request at position [i] is
    tested. *)
Fixpoint time_filter (now : nat → datetime) (i : nat)
    (pull_requests : list PullRequest) (younger_than : string) : list PullRequest :=
  match pull_requests with
  | [] => []
  | request :: rest =>
      if time_condition (now i) request younger_than
      then request :: time_filter now (S i) rest younger_than
      else time_filter now (S i) rest younger_than
  end.

(** [set(l.name for l in p.labels)] *)
Definition label_names (p : PullRequest) : gset string :=
  list_to_set (name <$> labels p).

(** [label_set <= set(l.name for l in p.labels)] *)
Definition has_labels (label_set : gset string) (p : PullRequest) : bool :=
  bool_decide (label_set ⊆ label_names p).

(** The [if label_list:] block: an empty tuple is falsy and leaves the list
    as it is. *)
Definition label_filter (label_list : list string)
    (pull_requests : list PullRequest) : list PullRequest :=
  match label_list with
  | [] => pull_requests
  | _ :: _ =>
      let label_set : gset string := list_to_set label_list in
      filter (λ p, has_labels label_set p = true) pull_requests
  end.

(** ** Counters *)

(** One round of the loop of [Counter.update] over a mapping:
    [self[elem] = count + self.get(elem, 0)]. *)
Definition counter_add (c : Counter) (item : NamedUser * Z) : Counter :=
  <[item.1 := item.2 + default 0 (c !! item.1)]> c.

(** [Counter.update] along a given enumeration of the mapping's items. *)
Definition counter_update_items (c : Counter) (items : list (NamedUser * Z)) : Counter :=
  foldl counter_add c items.

(** [c.update(m)], the items of [m] taken in the order of [map_to_list]. *)
Definition counter_update (c m : Counter) : Counter :=
  counter_update_items c (map_to_list m).

(** ** The loop of [show] *)

(** The body of the loop, on the pair (review_counter, creator_counter). *)
Definition process (extract_weight : PullRequest → Z)
    (st : Counter * Counter) (pull : PullRequest) : Counter * Counter :=
  (counter_update st.1 (extract_reviewers pull extract_weight),
   counter_update st.2 {[ pr_user pull := extract_weight pull ]}).

(** The loop from two fresh [Counter()]s. *)
Definition aggregate (extract_weight : PullRequest → Z)
    (pull_requests : list PullRequest) : Counter * Counter :=
  foldl (process extract_weight) (∅, ∅) pull_requests.

(** Python does not fix the order in which a dict built from a set hands
    out its items: one pass of the loop body for any enumeration [items] of
    the reviewers' dict. *)
Inductive processes (extract_weight : PullRequest → Z) :
    Counter * Counter → PullRequest → Counter * Counter → Prop :=
| processes_intro rc cc pull items :
    items ≡ₚ map_to_list (extract_reviewers pull extract_weight) →
    processes extract_weight (rc, cc) pull
      (counter_update_items rc items,
       counter_update_items cc [(pr_user pull, extract_weight pull)]).

(** A run of the loop over a list of pull requests. *)
Inductive run (extract_weight : PullRequest → Z) :
    Counter * Counter → list PullRequest → Counter * Counter → Prop :=
| run_nil st : run extract_weight st [] st
| run_cons st pull st' rest st'' :
    processes extract_weight st pull st' →
    run extract_weight st' rest st'' →
    run extract_weight st (pull :: rest) st''.

(** Lines 104-125 of [show]: both filters, the choice of the weight and the
    loop. *)
Definition show_counters (now : nat → datetime) (pull_requests : list PullRequest)
    (label_list : list string) (weight_method younger_than : string)
    : Counter * Counter :=
  let pull_requests := time_filter now 0 pull_requests younger_than in
  let extract_weight := select_weight weight_method in
  let pull_requests := label_filter label_list pull_requests in
  aggregate extract_weight pull_requests.

(** ** Reporter *)

Inductive exn := ZeroDivisionError.

(** What [click.echo] wrote: an empty line, a line of text, or a bar with
    its label, its characters, its percentage and the raw value.  The
    percentage is the exact quotient; its rounding to one decimal in binary
    floating point is not modelled, nor is the range of [float]. *)
Inductive echoed :=
| EchoBlank
| EchoText (s : string)
| EchoBar (prefix bar : string) (percent : Q) (iteration : Z).

(** [s * n] on strings; a count below one gives the empty string. *)
Definition string_times (s : string) (n : Z) : string :=
  Nat.iter (Z.to_nat n) (String.append s) "".

Definition print_bar (iteration total : Z) (prefix : string) (length : Z)
    : exn + echoed :=
  if (total =? 0)%Z then inl ZeroDivisionError
  else
    let percent := (inject_Z (100 * iteration) / inject_Z total)%Q in
    let filled := ((length * iteration) / total)%Z in
    let bar := string_times "#" filled +:+ string_times "-" (length - filled)%Z in
    inr (EchoBar prefix bar percent iteration).

(** [sorted(items, key=lambda pair: pair[1], reverse=True)]: stable, so
    equal values keep the order they came in. *)
Fixpoint insert_desc (x : NamedUser * Z) (l : list (NamedUser * Z))
    : list (NamedUser * Z) :=
  match l with
  | [] => [x]
  | y :: l' => if (y.2 <=? x.2)%Z then x :: y :: l' else y :: insert_desc x l'
  end.

Definition sorted_desc (items : list (NamedUser * Z)) : list (NamedUser * Z) :=
  foldr insert_desc [] items.

(** The [for] loop of [display_user_counter]: the log so far, and the
    exception that ended the loop if one did. *)
Fixpoint print_bars (total_sum : Z) (items : list (NamedUser * Z))
    (log : list echoed) : list echoed * option exn :=
  match items with
  | [] => (log, None)
  | (item, i) :: rest =>
      match print_bar i total_sum (login item) 44 with
      | inl e => (log, Some e)
      | inr line => print_bars total_sum rest (log ++ [line])%list
      end
  end.

(** [sum(counter.values())] *)
Definition counter_total (counter : Counter) : Z :=
  foldr Z.add 0 (map_to_list counter).*2.

(** The items come in the order of [map_to_list], not in Python's insertion
    order: the two can differ in the order of entries of equal value. *)
Definition display_user_counter (counter : Counter) (headline : string)
    : list echoed * option exn :=
  let total_sum := counter_total counter in
  print_bars total_sum (sorted_desc (map_to_list counter))
    [EchoBlank; EchoText headline].

(** [show] on the pull requests [get_pulls] returned: the log and the
    exception that ended it, if any. *)
Definition show (now : nat → datetime) (pull_requests : list PullRequest)
    (label_list : list string) (weight_method younger_than : string)
    : list echoed * option exn :=
  let '(review_counter, creator_counter) :=
    show_counters now pull_requests label_list weight_method younger_than in
  match display_user_counter review_counter "Reviewers ranking:" with
  | (log, Some e) => (log, Some e)
  | (log, None) =>
      let '(log', r) := display_user_counter creator_counter "Creators ranking:" in
      ((log ++ log')%list, r)
  end.

(** ** Review states of the hosting service *)

(** Modelled from the spec: the state in which the service reports an
    approving review.  The source receives review states as strings and
    declares none of them; the spec calls this one approved, and the
    service's token for it is APPROVED. *)
Definition state_approved : string := "APPROVED".

(** Modelled from the spec: the state in which the service reports a review
    that asks for changes, which the spec calls changes requested.  The
    service's token for it is CHANGES_REQUESTED; REQUEST_CHANGES is the name
    of the event that submits such a review, not a state a review is
    reported in. *)
Definition state_changes_requested : string := "CHANGES_REQUESTED".

(** Modelled from the spec: the state of a review that only comments, the
    spec's example of a state that is not counted; the service's token is
    COMMENTED. *)
Definition state_commented : string := "COMMENTED".

(** ** The scenario of three pull requests *)

Module Scenario.
Definition A := mkUser "A".
Definition B := mkUser "B".
Definition C := mkUser "C".

(** PR1: author A, approved by B, +10/-5. *)
Definition pr1 (t : datetime) (ls : list Label) : PullRequest :=
  mkPull A t 10 5 ls [mkReview B state_approved] ([], []).

(** PR2: author B, approved by A, changes requested by C, +0/-0; both
    reviews in the states the service reports them in. *)
Definition pr2 (t : datetime) (ls : list Label) : PullRequest :=
  mkPull B t 0 0 ls
    [mkReview A state_approved; mkReview C state_changes_requested] ([], []).

(** A pull request of B that A and C both approved, +0/-0. *)
Definition pr4 (t : datetime) (ls : list Label) : PullRequest :=
  mkPull B t 0 0 ls
    [mkReview A state_approved; mkReview C state_approved] ([], []).

(** PR3: author A, no reviews. *)
Definition pr3 (t : datetime) (ls : list Label) : PullRequest :=
  mkPull A t 0 0 ls [] ([], []).
End Scenario.

(** ** What the claims speak of *)

(** A user the reviewer extractor is to count for a pull request, in the
    spec's words: the author of a review whose state is approved or changes
    requested, or a user (not a team) among the review requests. *)
Definition qualifying_reviewer (pull_request : PullRequest) (u : NamedUser) : Prop :=
  (∃ rev, rev ∈ get_reviews pull_request ∧ user rev = u ∧
          (state rev = state_approved ∨ state rev = state_changes_requested))
  ∨ ReqUser u ∈ ((get_review_requests pull_request).1 ++
                 (get_review_requests pull_request).2)%list.

(** A user [extract_reviewers] does count, by the tests of its lines 14
    to 16: the author of a review whose state is one of the two strings the
    code compares with, or a user among the review requests. *)
Definition counted_reviewer (pull_request : PullRequest) (u : NamedUser) : Prop :=
  (∃ rev, rev ∈ get_reviews pull_request ∧ user rev = u ∧
          (state rev = "APPROVED" ∨ state rev = "REQUEST_CHANGES"))
  ∨ ReqUser u ∈ ((get_review_requests pull_request).1 ++
                 (get_review_requests pull_request).2)%list.

(** Additions and deletions are counts of lines. *)
Definition nonneg_changes (pull_request : PullRequest) : Prop :=
  0 ≤ additions pull_request ∧ 0 ≤ deletions pull_request.

(** Every entry of [c] is still there in [c'], with a value at least as
    large. *)
Definition grows (c c' : Counter) : Prop :=
  ∀ u v, c !! u = Some v → ∃ v', c' !! u = Some v' ∧ v ≤ v'.

Definition no_negative_entry (c : Counter) : Prop :=
  ∀ u v, c !! u = Some v → 0 ≤ v.

(** What [Counter.update] leaves under a key, whatever the order of the
    items: the old value (0 if there was none) plus the item's count. *)
Definition updated (c m : Counter) (k : NamedUser) : option Z :=
  match m !! k with
  | Some v => Some (v + default 0 (c !! k))
  | None => c !! k
  end.

(** ** The comments command *)

(** A review comment, with its [comment.user]. *)
Record PullRequestComment := mkComment { comment_user : NamedUser }.

(** A pull request as [comments] reads it: the result of [get_comments()]. *)
Record CommentedPull := mkCommented { get_comments : list PullRequestComment }.

Definition get_comment_author_name (comment : PullRequestComment) : string :=
  login (comment_user comment).

(** The loop [user_names += list(map(get_comment_author_name, comments))]. *)
Definition user_names (pull_requests : list CommentedPull) : list string :=
  foldl (λ names pull_request,
           names ++ (get_comment_author_name <$> get_comments pull_request))%list
        [] pull_requests.

(** One round of [Counter(iterable)]: [mapping[elem] = mapping.get(elem, 0) + 1].
    The dict keeps its keys in the order they were first set, which is the
    order [items()] hands out: a key that is there keeps its place, a new
    one goes to the end. *)
Fixpoint count_element (mapping : list (string * Z)) (elem : string)
    : list (string * Z) :=
  match mapping with
  | [] => [(elem, 1)]
  | (k, n) :: rest =>
      if String.eqb k elem then (k, n + 1) :: rest
      else (k, n) :: count_element rest elem
  end.

(** [Counter(iterable).items()] *)
Definition Counter_items (iterable : list string) : list (string * Z) :=
  foldl count_element [] iterable.

(** [sorted(items, key=itemgetter(1), reverse=True)] for any kind of key:
    the stable sort [sorted_desc] is at users. *)
Fixpoint insert_by_count {K} (x : K * Z) (l : list (K * Z)) : list (K * Z) :=
  match l with
  | [] => [x]
  | y :: l' => if (y.2 <=? x.2)%Z then x :: y :: l' else y :: insert_by_count x l'
  end.

Definition sorted_by_count {K} (items : list (K * Z)) : list (K * Z) :=
  foldr insert_by_count [] items.

(** [Counter(user_names).most_common()] *)
Definition most_common (user_names : list string) : list (string * Z) :=
  sorted_by_count (Counter_items user_names).

(** [s.ljust(width, ' ')]: [s] itself when it is [width] long or longer.
    Lengths are counted in bytes, which is Python's count for ASCII logins. *)
Definition ljust (s : string) (width : Z) : string :=
  s +:+ string_times " " (width - Z.of_nat (String.length s)).

(** [f"{name}:".ljust(20, ' ') + str(comment_count)] *)
Definition comment_row (item : string * Z) : string :=
  ljust (item.1 +:+ ":") 20 +:+ pretty item.2.

(** The strings handed to [print], one per call. *)
Definition print_users_with_comment_count
    (users_with_comment_count : list (string * Z)) : list string :=
  String "010"%char "Comment count per user:" ::
  (comment_row <$> users_with_comment_count).

(** What can end the fetching of [comments]. *)
Inductive fetch_error := ConnectionError | UnknownObjectException.

Inductive ClickException := mkClickException (message : string).

(** [comments] on the outcome of the fetching its [try] block does: every
    request to the service comes before the one [print], so an exception
    leaves nothing printed.  The progress bar is left out. *)
Definition comments (fetched : fetch_error + list CommentedPull)
    : list string * option ClickException :=
  match fetched with
  | inl ConnectionError =>
      ([], Some (mkClickException "Check your internet connection!"))
  | inl UnknownObjectException =>
      ([], Some (mkClickException "Repository not found!"))
  | inr pull_requests =>
      (print_users_with_comment_count (most_common (user_names pull_requests)),
       None)
  end.

(** ** What the further properties speak of *)

(** The sum of the values of a list of items. *)
Definition sum_values {K} (items : list (K * Z)) : Z := foldr Z.add 0 items.*2.

(** Values from the largest to the smallest. *)
Definition descending {K} (items : list (K * Z)) : Prop :=
  StronglySorted (λ a b, b.2 ≤ a.2) items.

(** The entries of [items] whose value is [v], in their order. *)
Definition with_count {K} (v : Z) (items : list (K * Z)) : list (K * Z) :=
  filter (λ x, x.2 = v) items.

(** How often [name] comes in a list of names. *)
Definition occurrences (name : string) (names : list string) : Z :=
  Z.of_nat (length (filter (λ x, x = name) names)).

(** The distinct names of a list, each at its first place. *)
Definition first_occurrences (names : list string) : list string :=
  reverse (remove_dups (reverse names)).

(** The label and the raw value of a bar; the characters of a bar. *)
Definition echoed_entry (e : echoed) : option (string * Z) :=
  match e with
  | EchoBar prefix _ _ iteration => Some (prefix, iteration)
  | _ => None
  end.

Definition echoed_bar (e : echoed) : option string :=
  match e with
  | EchoBar _ bar _ _ => Some bar
  | _ => None
  end.

(** The pull requests of a list that [u] created, and those [u] is a
    reviewer of. *)
Definition created_by (u : NamedUser) (pull_requests : list PullRequest)
    : list PullRequest :=
  filter (λ p, pr_user p = u) pull_requests.

Definition reviewed_by (u : NamedUser) (pull_requests : list PullRequest)
    : list PullRequest :=
  filter (λ p, u ∈ reviewer_set p) pull_requests.

(** The sum of the weights of a list of pull requests. *)
Definition total_weight (extract_weight : PullRequest → Z)
    (pull_requests : list PullRequest) : Z :=
  foldr Z.add 0 (extract_weight <$> pull_requests).

(** What a counter of [show] holds for a user whose pull requests are [ps]:
    no entry without a pull request, else the sum of the weights. *)
Definition tally (extract_weight : PullRequest → Z) (ps : list PullRequest)
    : option Z :=
  match ps with
  | [] => None
  | _ :: _ => Some (total_weight extract_weight ps)
  end.

(** The authors of all the comments of a list of pull requests, pull
    request after pull request. *)
Definition comment_authors (pull_requests : list CommentedPull) : list string :=
  concat ((λ p, get_comment_author_name <$> get_comments p) <$> pull_requests).

(** * Properties *)

(** ** Weight extractor *)

(** C6: in simple mode the weight is the constant 1 whatever the pull
    request holds; in changes mode it is additions plus deletions, which is
    0 for a pull request with no additions and no deletions. *)
Theorem weight_modes (pull_request : PullRequest) (u : NamedUser) (t : datetime)
    (ls : list Label) (revs : list PullRequestReview)
    (reqs : list Requested * list Requested) :
  select_weight "simple" pull_request = 1 ∧
  select_weight "changes" pull_request =
    additions pull_request + deletions pull_request ∧
  select_weight "changes" (mkPull u t 0 0 ls revs reqs) = 0.
Proof. repeat split. Qed.

(** ** Time filter *)

Lemma younger_than_delta_spec now pull_request delta :
  younger_than_delta now pull_request delta = true ↔
  created_at pull_request > now - delta.
Proof. unfold younger_than_delta. apply bool_decide_eq_true. Qed.

Lemma younger_than_delta_boundary now pull_request delta :
  created_at pull_request = now - delta →
  younger_than_delta now pull_request delta = false.
Proof.
  intros E. unfold younger_than_delta. apply bool_decide_eq_false. lia.
Qed.

Lemma younger_than_delta_mono now pull_request delta delta' :
  delta ≤ delta' →
  younger_than_delta now pull_request delta = true →
  younger_than_delta now pull_request delta' = true.
Proof. rewrite !younger_than_delta_spec. lia. Qed.

(** C4: the window all accepts every pull request; week, month and year
    accept exactly those created strictly after now minus 7, 31 and 365
    days; a pull request created exactly at now minus the delta is
    refused. *)
Theorem time_condition_windows (now : datetime) (pull_request : PullRequest)
    (u : NamedUser) (a d : Z) (ls : list Label) (revs : list PullRequestReview)
    (reqs : list Requested * list Requested) :
  time_condition now pull_request "all" = true ∧
  (time_condition now pull_request "week" = true ↔
     created_at pull_request > now - timedelta_days 7) ∧
  (time_condition now pull_request "month" = true ↔
     created_at pull_request > now - timedelta_days 31) ∧
  (time_condition now pull_request "year" = true ↔
     created_at pull_request > now - timedelta_days 365) ∧
  time_condition now (mkPull u (now - timedelta_days 7) a d ls revs reqs) "week" = false ∧
  time_condition now (mkPull u (now - timedelta_days 31) a d ls revs reqs) "month" = false ∧
  time_condition now (mkPull u (now - timedelta_days 365) a d ls revs reqs) "year" = false.
Proof.
  repeat split;
    try (apply younger_than_delta_spec);
    try (apply younger_than_delta_boundary; reflexivity).
Qed.

(** The two instants of the spec's example: seven days to the second is
    outside the week, six days and twenty-three hours is inside. *)
Example week_boundary_examples (now : datetime) (u : NamedUser) :
  time_condition now (mkPull u (now - 7 * 86400 * 1000000) 0 0 [] [] ([], [])) "week" = false ∧
  time_condition now (mkPull u (now - (6 * 86400 + 23 * 3600) * 1000000) 0 0 [] [] ([], [])) "week" = true.
Proof.
  split.
  - apply younger_than_delta_boundary. reflexivity.
  - apply younger_than_delta_spec. unfold timedelta_days. simpl created_at. lia.
Qed.

Lemma time_condition_outside now pull_request condition :
  condition ≠ "week" → condition ≠ "month" → condition ≠ "year" →
  condition ≠ "all" →
  time_condition now pull_request condition = false.
Proof.
  intros Hw Hm Hy Ha. unfold time_condition.
  apply String.eqb_neq in Hw, Hm, Hy, Ha.
  rewrite Ha, Hw, Hm, Hy. reflexivity.
Qed.

(** C5: a window outside week, month, year and all makes the filter answer
    false for every pull request, without an exception, so that nothing
    passes the time filter of [show]. *)
Theorem time_condition_unrecognized (now : datetime) (pull_request : PullRequest)
    (clock : nat → datetime) (i : nat) (pull_requests : list PullRequest)
    (condition : string) :
  condition ≠ "week" → condition ≠ "month" → condition ≠ "year" →
  condition ≠ "all" →
  time_condition now pull_request condition = false ∧
  time_filter clock i pull_requests condition = [].
Proof.
  intros Hw Hm Hy Ha. split; [apply time_condition_outside; assumption|].
  revert i.
  induction pull_requests as [|p rest IH]; intros i; simpl; [reflexivity|].
  rewrite time_condition_outside by assumption. apply IH.
Qed.

Lemma time_condition_unrecognized_witness :
  time_condition 0 (Scenario.pr1 0 []) "decade" = false ∧
  time_filter (λ _, 0) 0 [Scenario.pr1 0 []; Scenario.pr2 0 []] "decade" = [].
Proof.
  apply time_condition_unrecognized; intros E; discriminate E.
Defined.

(** C10: for a fixed reading of the clock, what the week window accepts
    the month window accepts, what month accepts year accepts, and what
    year accepts all accepts. *)
Theorem time_windows_nested (now : datetime) (pull_request : PullRequest) :
  (time_condition now pull_request "week" = true →
   time_condition now pull_request "month" = true) ∧
  (time_condition now pull_request "month" = true →
   time_condition now pull_request "year" = true) ∧
  (time_condition now pull_request "year" = true →
   time_condition now pull_request "all" = true).
Proof.
  repeat split.
  - apply younger_than_delta_mono. unfold timedelta_days. lia.
  - apply younger_than_delta_mono. unfold timedelta_days. lia.
Qed.

Lemma time_windows_nested_witness :
  let now := timedelta_days 20000 in
  let p := Scenario.pr1 (now - timedelta_days 3) [] in
  time_condition now p "week" = true ∧
  time_condition now p "month" = true ∧
  time_condition now p "year" = true ∧
  time_condition now p "all" = true.
Proof.
  intros now p.
  destruct (time_windows_nested now p) as (Hwm & Hmy & Hya).
  assert (Hw : time_condition now p "week" = true) by (vm_compute; reflexivity).
  pose proof (Hwm Hw) as Hm. pose proof (Hmy Hm) as Hy.
  pose proof (Hya Hy) as Hall.
  repeat split; assumption.
Defined.

(** ** Label filter *)

Lemma has_labels_spec label_set p :
  has_labels label_set p = true ↔ label_set ⊆ label_names p.
Proof. unfold has_labels. apply bool_decide_eq_true. Qed.

Lemma filter_all {A} (P : A → Prop) `{∀ x, Decision (P x)} (l : list A) :
  (∀ x, P x) → filter P l = l.
Proof.
  intros HP. induction l as [|x l IH]; [reflexivity|].
  rewrite filter_cons_True by apply HP. f_equal. exact IH.
Qed.

(** C7: the label filter keeps exactly the pull requests whose label names
    include every required label (their order and number untouched), and
    with no required label it keeps the whole list. *)
Theorem label_filter_subset (label_list : list string)
    (pull_requests : list PullRequest) :
  label_filter label_list pull_requests =
    filter (λ p, (list_to_set label_list : gset string) ⊆ label_names p)
      pull_requests ∧
  (∀ p, p ∈ label_filter label_list pull_requests ↔
        p ∈ pull_requests ∧
        (list_to_set label_list : gset string) ⊆ label_names p) ∧
  label_filter [] pull_requests = pull_requests.
Proof.
  assert (E : label_filter label_list pull_requests =
    filter (λ p, (list_to_set label_list : gset string) ⊆ label_names p)
      pull_requests).
  { destruct label_list as [|l ls].
    - simpl. symmetry. apply filter_all. intros p. set_solver.
    - unfold label_filter. apply list_filter_iff. intros p.
      apply has_labels_spec. }
  split; [exact E|]. split; [|reflexivity].
  intros p. rewrite E, list_elem_of_filter. tauto.
Qed.

(** The spec's two examples on a pull request labelled bug and urgent. *)
Example label_filter_examples (u : NamedUser) :
  let p := mkPull u 0 0 0 [mkLabel "bug"; mkLabel "urgent"] [] ([], []) in
  label_filter ["bug"] [p] = [p] ∧ label_filter ["bug"; "missing"] [p] = [].
Proof. split; vm_compute; reflexivity. Qed.

(** ** Reviewer extractor *)

Lemma counted_state_spec s :
  counted_state s = true ↔ s = "APPROVED" ∨ s = "REQUEST_CHANGES".
Proof.
  unfold counted_state. rewrite orb_true_iff, !String.eqb_eq. reflexivity.
Qed.

Lemma elem_of_review_authors pull_request u :
  u ∈ review_authors pull_request ↔
  ∃ rev, rev ∈ get_reviews pull_request ∧ user rev = u ∧
         (state rev = "APPROVED" ∨ state rev = "REQUEST_CHANGES").
Proof.
  unfold review_authors. rewrite list_elem_of_fmap. split.
  - intros (rev & -> & Hrev). apply list_elem_of_filter in Hrev as [Hs Hin].
    exists rev. rewrite <- counted_state_spec. auto.
  - intros (rev & Hin & <- & Hs). exists rev. split; [reflexivity|].
    apply list_elem_of_filter. rewrite counted_state_spec. auto.
Qed.

Lemma elem_of_named_users l u : u ∈ named_users l ↔ ReqUser u ∈ l.
Proof.
  unfold named_users. rewrite list_elem_of_omap. split.
  - intros ([u'|t] & Hin & E); [|discriminate E].
    injection E as ->. exact Hin.
  - intros Hin. exists (ReqUser u). auto.
Qed.

Lemma elem_of_reviewer_set pull_request u :
  u ∈ reviewer_set pull_request ↔ counted_reviewer pull_request u.
Proof.
  unfold reviewer_set, sources, counted_reviewer. simpl.
  rewrite !elem_of_union, !elem_of_list_to_set, !elem_of_named_users,
    elem_of_review_authors, elem_of_app.
  tauto.
Qed.

(** What the code does: the keys of the reviewers' mapping are exactly the
    users the code counts; each of them has one entry, equal to the weight
    of the pull request, and a user outside them has none. *)
Lemma extract_reviewers_counted (pull_request : PullRequest)
    (extract_weight : PullRequest → Z) (u : NamedUser) :
  (u ∈ dom (extract_reviewers pull_request extract_weight) ↔
     counted_reviewer pull_request u) ∧
  (extract_reviewers pull_request extract_weight !! u =
     Some (extract_weight pull_request) ↔ counted_reviewer pull_request u) ∧
  (extract_reviewers pull_request extract_weight !! u = None ↔
     ¬ counted_reviewer pull_request u) ∧
  NoDup (map_to_list (extract_reviewers pull_request extract_weight)).*1.
Proof.
  unfold extract_reviewers. cbv zeta.
  rewrite dom_gset_to_gmap, lookup_gset_to_gmap_Some, lookup_gset_to_gmap_None,
    elem_of_reviewer_set.
  repeat split; try tauto.
  apply NoDup_fst_map_to_list.
Qed.

(** A user who approved twice and is requested again still has a single
    entry holding the weight once; a comment and a requested team add
    nobody. *)
Example extract_reviewers_once :
  let p := mkPull Scenario.A 0 10 5 []
             [mkReview Scenario.B state_approved; mkReview Scenario.B state_approved;
              mkReview Scenario.C state_commented]
             ([ReqUser Scenario.B], [ReqTeam (mkTeam "core")]) in
  map_to_list (extract_reviewers p extract_complex) = [(Scenario.B, 15)].
Proof. vm_compute. reflexivity. Qed.

(** The string the code compares with is not the state of a review that
    asks for changes. *)
Lemma counted_state_changes_requested :
  counted_state state_changes_requested = false ∧
  counted_state state_approved = true ∧
  counted_state state_commented = false.
Proof. repeat split. Qed.

(** C2, at the input where the code departs from it: a pull request whose
    only review is one in the state changes requested and which has no
    review request.  The author of that review is a reviewer the claim
    counts, yet the mapping of [extract_reviewers] is empty and holds no
    entry for them, whatever the weight: line 14 compares the state with
    REQUEST_CHANGES, which no review is reported in. *)
Theorem extract_reviewers_misses_changes_requested
    (extract_weight : PullRequest → Z) (author reviewer : NamedUser)
    (t : datetime) (a d : Z) (ls : list Label) :
  let p := mkPull author t a d ls
             [mkReview reviewer state_changes_requested] ([], []) in
  qualifying_reviewer p reviewer ∧
  extract_reviewers p extract_weight !! reviewer = None ∧
  extract_reviewers p extract_weight = ∅.
Proof.
  intros p.
  assert (E : extract_reviewers p extract_weight = ∅).
  { unfold extract_reviewers. cbv zeta.
    replace (reviewer_set p) with (∅ : gset NamedUser) by reflexivity.
    apply gset_to_gmap_empty. }
  split; [|split; [rewrite E; apply lookup_empty | exact E]].
  left. exists (mkReview reviewer state_changes_requested).
  split; [apply list_elem_of_here | split; [reflexivity | right; reflexivity]].
Qed.

(** ** Counters *)

Lemma lookup_counter_update_items c items k :
  NoDup items.*1 →
  counter_update_items c items !! k = updated c (list_to_map items) k.
Proof.
  unfold counter_update_items, updated. revert c.
  induction items as [|[k' v'] items IH]; intros c Hnd; simpl.
  - rewrite lookup_empty. reflexivity.
  - apply NoDup_cons in Hnd as [Hk' Hnd]. rewrite IH by exact Hnd.
    unfold counter_add; simpl. destruct (decide (k' = k)) as [->|Hne].
    + rewrite lookup_insert_eq.
      rewrite (not_elem_of_list_to_map_1 items k) by exact Hk'.
      rewrite lookup_insert_eq. reflexivity.
    + rewrite (lookup_insert_ne (list_to_map items)) by exact Hne.
      rewrite lookup_insert_ne by exact Hne. reflexivity.
Qed.

Lemma lookup_counter_update c m k : counter_update c m !! k = updated c m k.
Proof.
  unfold counter_update.
  rewrite lookup_counter_update_items by apply NoDup_fst_map_to_list.
  rewrite list_to_map_to_list. reflexivity.
Qed.

(** The order in which the items of the mapping are taken does not matter. *)
Lemma counter_update_items_perm c m items :
  items ≡ₚ map_to_list m → counter_update_items c items = counter_update c m.
Proof.
  intros Hp. apply map_eq. intros k.
  assert (Hnd : NoDup items.*1).
  { rewrite Hp. apply NoDup_fst_map_to_list. }
  rewrite lookup_counter_update_items, lookup_counter_update by exact Hnd.
  rewrite (list_to_map_proper items (map_to_list m)) by assumption.
  rewrite list_to_map_to_list. reflexivity.
Qed.

Lemma counter_update_grows c m : no_negative_entry m → grows c (counter_update c m).
Proof.
  intros Hm u v Hu. rewrite lookup_counter_update. unfold updated.
  destruct (m !! u) as [w|] eqn:E.
  - rewrite Hu. simpl. exists (w + v). split; [reflexivity|].
    specialize (Hm u w E). lia.
  - exists v. split; [exact Hu | lia].
Qed.

Lemma counter_update_no_negative c m :
  no_negative_entry c → no_negative_entry m →
  no_negative_entry (counter_update c m).
Proof.
  intros Hc Hm u v. rewrite lookup_counter_update. unfold updated.
  destruct (m !! u) as [w|] eqn:E.
  - intros [= <-]. specialize (Hm u w E).
    destruct (c !! u) as [x|] eqn:Ec; simpl; [specialize (Hc u x Ec)|]; lia.
  - apply Hc.
Qed.

(** ** The loop *)

Lemma select_weight_nonneg weight_method pull :
  nonneg_changes pull → 0 ≤ select_weight weight_method pull.
Proof.
  intros [Ha Hd]. unfold select_weight.
  destruct (String.eqb weight_method "simple");
    unfold extract_simple, extract_complex; lia.
Qed.

Lemma extract_reviewers_no_negative pull extract_weight :
  0 ≤ extract_weight pull →
  no_negative_entry (extract_reviewers pull extract_weight).
Proof.
  intros Hw u v. unfold extract_reviewers.
  rewrite lookup_gset_to_gmap_Some. intros [_ <-]. exact Hw.
Qed.

Lemma singleton_no_negative (u : NamedUser) (w : Z) :
  0 ≤ w → no_negative_entry {[ u := w ]}.
Proof. intros Hw k v. rewrite lookup_singleton_Some. intros [_ <-]. exact Hw. Qed.

Lemma aggregate_snoc extract_weight pull_requests pull :
  aggregate extract_weight (pull_requests ++ [pull]) =
  process extract_weight (aggregate extract_weight pull_requests) pull.
Proof. unfold aggregate. rewrite foldl_app. reflexivity. Qed.

Lemma aggregate_no_negative weight_method pull_requests :
  Forall nonneg_changes pull_requests →
  no_negative_entry (aggregate (select_weight weight_method) pull_requests).1 ∧
  no_negative_entry (aggregate (select_weight weight_method) pull_requests).2.
Proof.
  induction pull_requests as [|pull rest IH] using rev_ind; intros Hall.
  - split; intros u v; simpl; rewrite lookup_empty; discriminate.
  - apply Forall_app in Hall as [Hrest Hpull].
    rewrite Forall_singleton in Hpull.
    destruct (IH Hrest) as [IH1 IH2].
    pose proof (select_weight_nonneg weight_method pull Hpull) as Hw.
    rewrite aggregate_snoc. unfold process; simpl. split.
    + apply counter_update_no_negative;
        [exact IH1 | apply extract_reviewers_no_negative, Hw].
    + apply counter_update_no_negative;
        [exact IH2 | apply singleton_no_negative, Hw].
Qed.

Lemma counter_update_singleton (c : Counter) (u : NamedUser) (w : Z) :
  counter_update c {[ u := w ]} = counter_update_items c [(u, w)].
Proof. unfold counter_update. rewrite map_to_list_singleton. reflexivity. Qed.

(** Each pass of the loop body has one outcome, the one of [process]. *)
Lemma processes_process extract_weight st pull st' :
  processes extract_weight st pull st' ↔ st' = process extract_weight st pull.
Proof.
  split.
  - intros [rc cc p items Hp]. unfold process. cbn [fst snd].
    rewrite counter_update_singleton.
    rewrite <- (counter_update_items_perm rc _ items Hp). reflexivity.
  - intros ->. destruct st as [rc cc]. unfold process. cbn [fst snd].
    rewrite counter_update_singleton.
    apply processes_intro. reflexivity.
Qed.

Lemma run_foldl extract_weight st pull_requests st' :
  run extract_weight st pull_requests st' ↔
  st' = foldl (process extract_weight) st pull_requests.
Proof.
  split.
  - induction 1 as [st|st pull st' rest st'' Hp _ IH]; [reflexivity|].
    apply processes_process in Hp. subst st'. exact IH.
  - intros ->. revert st.
    induction pull_requests as [|pull rest IH]; intros st; simpl.
    + constructor.
    + econstructor; [apply processes_process; reflexivity | apply IH].
Qed.

(** C8: along the loop, starting from two fresh counters and with
    additions and deletions that are not negative, processing one more pull
    request removes no entry of the reviewer counter or of the creator
    counter, lowers none, and leaves no negative entry in either. *)
Theorem counters_only_grow (weight_method : string)
    (pull_requests : list PullRequest) (pull : PullRequest) :
  Forall nonneg_changes (pull_requests ++ [pull]) →
  let extract_weight := select_weight weight_method in
  let before := aggregate extract_weight pull_requests in
  let after := aggregate extract_weight (pull_requests ++ [pull]) in
  grows before.1 after.1 ∧ grows before.2 after.2 ∧
  no_negative_entry after.1 ∧ no_negative_entry after.2.
Proof.
  intros Hall extract_weight before after.
  destruct (aggregate_no_negative weight_method _ Hall) as [Hn1 Hn2].
  apply Forall_app in Hall as [_ Hpull]. rewrite Forall_singleton in Hpull.
  pose proof (select_weight_nonneg weight_method pull Hpull) as Hw.
  subst after before extract_weight. repeat split; try assumption.
  - rewrite aggregate_snoc. unfold process; cbn [fst snd].
    apply counter_update_grows, extract_reviewers_no_negative, Hw.
  - rewrite aggregate_snoc. unfold process; cbn [fst snd].
    apply counter_update_grows, singleton_no_negative, Hw.
Qed.

Lemma counters_only_grow_witness :
  let before := aggregate (select_weight "changes") [Scenario.pr1 0 []] in
  let after :=
    aggregate (select_weight "changes") ([Scenario.pr1 0 []] ++ [Scenario.pr2 0 []]) in
  grows before.1 after.1 ∧ grows before.2 after.2 ∧
  no_negative_entry after.1 ∧ no_negative_entry after.2.
Proof.
  apply (counters_only_grow "changes" [Scenario.pr1 0 []] (Scenario.pr2 0 [])).
  simpl. repeat (constructor; [split; simpl; lia|]). constructor.
Defined.

(** C9: two runs of the loop over the same list of pull requests, each from
    its own pair of fresh counters and each free to take the reviewers of a
    pull request in its own order, end with the same reviewer counter and
    the same creator counter, the ones [aggregate] computes. *)
Theorem aggregation_deterministic (extract_weight : PullRequest → Z)
    (pull_requests : list PullRequest) (st1 st2 : Counter * Counter) :
  run extract_weight (∅, ∅) pull_requests st1 →
  run extract_weight (∅, ∅) pull_requests st2 →
  st1 = st2 ∧ st1 = aggregate extract_weight pull_requests.
Proof.
  intros H1 H2. apply run_foldl in H1, H2. subst st1 st2. split; reflexivity.
Qed.

(** The loop always has a run: the one [aggregate] follows. *)
Lemma run_aggregate extract_weight pull_requests :
  run extract_weight (∅, ∅) pull_requests (aggregate extract_weight pull_requests).
Proof. apply run_foldl. reflexivity. Qed.

Lemma aggregation_deterministic_witness :
  let st1 : Counter * Counter :=
    (counter_update_items ∅ [(Scenario.A, 0); (Scenario.C, 0)],
     counter_update_items ∅ [(Scenario.B, 0)]) in
  let st2 : Counter * Counter :=
    (counter_update_items ∅ [(Scenario.C, 0); (Scenario.A, 0)],
     counter_update_items ∅ [(Scenario.B, 0)]) in
  st1 = st2 ∧ st1 = aggregate extract_complex [Scenario.pr4 0 []].
Proof.
  intros st1 st2.
  apply (aggregation_deterministic extract_complex [Scenario.pr4 0 []]).
  - eapply run_cons; [|apply run_nil].
    apply (processes_intro extract_complex ∅ ∅ (Scenario.pr4 0 [])
             [(Scenario.A, 0); (Scenario.C, 0)]).
    vm_compute. apply perm_swap.
  - eapply run_cons; [|apply run_nil].
    apply (processes_intro extract_complex ∅ ∅ (Scenario.pr4 0 [])
             [(Scenario.C, 0); (Scenario.A, 0)]).
    vm_compute. reflexivity.
Defined.

(** ** End to end *)

Lemma time_filter_all now i pull_requests :
  time_filter now i pull_requests "all" = pull_requests.
Proof.
  revert i. induction pull_requests as [|p rest IH]; intros i; simpl;
    [reflexivity | f_equal; apply IH].
Qed.

(** C3, at its own input: PR1 (author A, approved by B, +10/-5), PR2
    (author B, approved by A, changes requested by C, +0/-0) and PR3 (author
    A, no review), with weight method changes, whatever the creation times
    and labels when no window and no label is asked for.  The creator
    counter is the claimed {A: 15, B: 0}; the reviewer counter is
    {B: 15, A: 0}, without the claimed entry C: 0, because C's review is
    not in a state the code compares with. *)
Theorem end_to_end_drops_changes_requested (now : nat → datetime)
    (t1 t2 t3 : datetime) (l1 l2 l3 : list Label) :
  let counters :=
    show_counters now
      [Scenario.pr1 t1 l1; Scenario.pr2 t2 l2; Scenario.pr3 t3 l3]
      [] "changes" "all" in
  counters.2 = {[ Scenario.A := 15; Scenario.B := 0 ]} ∧
  counters.1 = {[ Scenario.B := 15; Scenario.A := 0 ]} ∧
  counters.1 !! Scenario.C = None ∧
  counters.1 ≠ {[ Scenario.B := 15; Scenario.A := 0; Scenario.C := 0 ]}.
Proof.
  intros counters. subst counters.
  unfold show_counters. rewrite time_filter_all.
  repeat split; try (vm_compute; reflexivity).
  intros E.
  assert (H : ({[ Scenario.B := 15; Scenario.A := 0; Scenario.C := 0 ]} : Counter)
                !! Scenario.C = None).
  { rewrite <- E. vm_compute. reflexivity. }
  vm_compute in H. discriminate H.
Qed.

(** ** Reporter *)

Lemma print_bar_zero_total iteration prefix length :
  print_bar iteration 0 prefix length = inl ZeroDivisionError.
Proof. reflexivity. Qed.

Lemma print_bar_nonzero_total iteration total prefix length :
  total ≠ 0 → ∃ line, print_bar iteration total prefix length = inr line.
Proof.
  intros Ht. unfold print_bar. apply Z.eqb_neq in Ht. rewrite Ht. eauto.
Qed.

Lemma insert_desc_not_nil x l : insert_desc x l ≠ [].
Proof. destruct l as [|y l]; simpl; [|destruct (y.2 <=? x.2)]; discriminate. Qed.

Lemma sorted_desc_not_nil items : items ≠ [] → sorted_desc items ≠ [].
Proof.
  destruct items as [|x items]; [congruence|].
  intros _. apply insert_desc_not_nil.
Qed.

Lemma print_bars_zero_total items log :
  items ≠ [] → print_bars 0 items log = (log, Some ZeroDivisionError).
Proof. destruct items as [|[item i] rest]; [congruence | reflexivity]. Qed.

Lemma print_bars_nonzero_total total_sum items log :
  total_sum ≠ 0 → (print_bars total_sum items log).2 = None.
Proof.
  intros Ht. revert log.
  induction items as [|[item i] rest IH]; intros log; simpl; [reflexivity|].
  destruct (print_bar_nonzero_total i total_sum (login item) 44 Ht) as [line ->].
  apply IH.
Qed.

(** With no entry at all there is nothing to divide: the headline is the
    whole report. *)
Lemma display_user_counter_empty headline :
  display_user_counter ∅ headline = ([EchoBlank; EchoText headline], None).
Proof. reflexivity. Qed.

(** A total other than 0 never ends in an exception. *)
Lemma display_user_counter_nonzero_total counter headline :
  counter_total counter ≠ 0 → (display_user_counter counter headline).2 = None.
Proof. intros Ht. apply print_bars_nonzero_total, Ht. Qed.

(** Any counter that has an entry and sums to 0 ends the report with
    [ZeroDivisionError], after the headline. *)
Lemma display_user_counter_zero_total counter headline :
  counter ≠ ∅ → counter_total counter = 0 →
  display_user_counter counter headline =
    ([EchoBlank; EchoText headline], Some ZeroDivisionError).
Proof.
  intros Hne Ht. unfold display_user_counter. rewrite Ht.
  apply print_bars_zero_total, sorted_desc_not_nil.
  intros E. apply Hne, map_to_list_empty_iff, E.
Qed.

(** C1, at the input where the code departs from it: a counter whose only
    entry is 0, as a single pull request with an empty diff gives the
    creator A, sums to 0, and the report ends with [ZeroDivisionError] in
    its first bar instead of completing. *)
Theorem display_zero_total_raises :
  counter_total {[ Scenario.A := 0 ]} = 0 ∧
  display_user_counter {[ Scenario.A := 0 ]} "Creators ranking:" =
    ([EchoBlank; EchoText "Creators ranking:"], Some ZeroDivisionError).
Proof. split; vm_compute; reflexivity. Qed.

(** The same through [show]: one pull request by A with no additions, no
    deletions and no reviewer. *)
Example show_empty_diff_raises (now : nat → datetime) (t : datetime) (ls : list Label) :
  show now [Scenario.pr3 t ls] [] "changes" "all" =
    ([EchoBlank; EchoText "Reviewers ranking:";
      EchoBlank; EchoText "Creators ranking:"], Some ZeroDivisionError).
Proof.
  unfold show, show_counters. rewrite time_filter_all. vm_compute. reflexivity.
Qed.

(** With no pull request left after the filters both reports are complete. *)
Example show_no_pull_request (now : nat → datetime) (label_list : list string)
    (weight_method younger_than : string) :
  show now [] label_list weight_method younger_than =
    ([EchoBlank; EchoText "Reviewers ranking:";
      EchoBlank; EchoText "Creators ranking:"], None).
Proof. destruct label_list; reflexivity. Qed.

(** * Further properties *)

(** ** The descending sort *)

Lemma insert_desc_by_count x l : insert_desc x l = insert_by_count x l.
Proof.
  induction l as [|y l IH]; simpl; [reflexivity|].
  rewrite IH. reflexivity.
Qed.

Lemma sorted_desc_by_count items : sorted_desc items = sorted_by_count items.
Proof.
  unfold sorted_desc, sorted_by_count.
  induction items as [|x items IH]; simpl; [reflexivity|].
  rewrite IH. apply insert_desc_by_count.
Qed.

Section by_count.
Context {K : Type}.
Implicit Types (x : K * Z) (l : list (K * Z)).

Lemma insert_by_count_perm x l : insert_by_count x l ≡ₚ x :: l.
Proof.
  induction l as [|y l IH]; simpl; [reflexivity|].
  destruct (y.2 <=? x.2); [reflexivity|].
  rewrite IH. apply perm_swap.
Qed.

Lemma sorted_by_count_perm l : sorted_by_count l ≡ₚ l.
Proof.
  unfold sorted_by_count.
  induction l as [|x l IH]; simpl; [reflexivity|].
  rewrite insert_by_count_perm, IH. reflexivity.
Qed.

Lemma insert_by_count_descending x l :
  descending l → descending (insert_by_count x l).
Proof.
  unfold descending.
  induction l as [|y l IH]; simpl; intros Hl.
  - repeat constructor.
  - apply StronglySorted_inv in Hl as [Hl Hy].
    destruct (Z.leb_spec (y.2) (x.2)) as [Hle|Hgt].
    + constructor; [constructor; assumption|].
      constructor; [exact Hle|].
      eapply Forall_impl; [exact Hy|]. simpl. intros b Hb. lia.
    + constructor; [apply IH, Hl|].
      rewrite insert_by_count_perm. constructor; [lia | exact Hy].
Qed.

Lemma sorted_by_count_descending l : descending (sorted_by_count l).
Proof.
  unfold sorted_by_count.
  induction l as [|x l IH]; simpl; [constructor|].
  apply insert_by_count_descending, IH.
Qed.

(** The sort is stable: an item goes in front of the first one that is
    not larger, so behind none of its own value. *)
Lemma with_count_insert v x l :
  with_count v (insert_by_count x l) = with_count v (x :: l).
Proof.
  unfold with_count.
  induction l as [|y l IH]; simpl; [reflexivity|].
  destruct (Z.leb_spec (y.2) (x.2)) as [Hle|Hgt]; [reflexivity|].
  rewrite (filter_cons _ y), IH, !(filter_cons _ x), (filter_cons _ y).
  destruct (decide (x.2 = v)) as [Hx|Hx]; [|reflexivity].
  destruct (decide (y.2 = v)) as [Hy|Hy]; [lia | reflexivity].
Qed.

Lemma with_count_sorted v l :
  with_count v (sorted_by_count l) = with_count v l.
Proof.
  unfold sorted_by_count.
  induction l as [|x l IH]; simpl; [reflexivity|].
  rewrite with_count_insert. unfold with_count in *.
  rewrite !(filter_cons _ x), IH. reflexivity.
Qed.

Lemma sum_values_cons x l : sum_values (x :: l) = x.2 + sum_values l.
Proof. reflexivity. Qed.

Lemma sum_values_perm l l' : l ≡ₚ l' → sum_values l = sum_values l'.
Proof.
  induction 1 as [|x l l' _ IH|x y l|l l' l'' _ IH1 _ IH2];
    rewrite ?sum_values_cons; [reflexivity | lia | lia | congruence].
Qed.

Lemma sum_values_app l l' : sum_values (l ++ l') = sum_values l + sum_values l'.
Proof.
  induction l as [|x l IH]; [reflexivity|].
  rewrite <- app_comm_cons, !sum_values_cons, IH. lia.
Qed.

Lemma sum_values_sorted l : sum_values (sorted_by_count l) = sum_values l.
Proof. apply sum_values_perm, sorted_by_count_perm. Qed.
End by_count.

(** ** Counting the comment authors *)

Lemma user_names_from names pull_requests :
  foldl (λ names pull_request,
           names ++ (get_comment_author_name <$> get_comments pull_request))%list
        names pull_requests = (names ++ comment_authors pull_requests)%list.
Proof.
  revert names. induction pull_requests as [|p rest IH]; intros names.
  - simpl. rewrite app_nil_r. reflexivity.
  - simpl. rewrite IH. unfold comment_authors. simpl.
    rewrite app_assoc. reflexivity.
Qed.

Lemma user_names_comment_authors pull_requests :
  user_names pull_requests = comment_authors pull_requests.
Proof. unfold user_names. rewrite user_names_from. reflexivity. Qed.

Lemma Counter_items_snoc names elem :
  Counter_items (names ++ [elem]) = count_element (Counter_items names) elem.
Proof. unfold Counter_items. rewrite foldl_app. reflexivity. Qed.

Lemma count_element_keys mapping elem :
  (count_element mapping elem).*1 =
  if decide (elem ∈ mapping.*1) then mapping.*1 else (mapping.*1 ++ [elem])%list.
Proof.
  induction mapping as [|[k n] rest IH].
  - destruct (decide (elem ∈ ([] : list (string * Z)).*1)) as [Hin|_];
      [inversion Hin | reflexivity].
  - cbn [count_element].
    destruct (String.eqb_spec k elem) as [->|Hne].
    + destruct (decide (elem ∈ ((elem, n) :: rest).*1)) as [_|Hin];
        [reflexivity|].
      exfalso. apply Hin, list_elem_of_here.
    + rewrite !fmap_cons, IH. cbn [fst].
      destruct (decide (elem ∈ rest.*1)) as [Hin|Hin];
        destruct (decide (elem ∈ k :: rest.*1)) as [Hin'|Hin'];
        try reflexivity.
      * exfalso. apply Hin', list_elem_of_further, Hin.
      * exfalso. apply elem_of_cons in Hin' as [E|E]; [congruence | exact (Hin E)].
Qed.

Lemma first_occurrences_snoc names elem :
  first_occurrences (names ++ [elem]) =
  if decide (elem ∈ first_occurrences names) then first_occurrences names
  else (first_occurrences names ++ [elem])%list.
Proof.
  unfold first_occurrences. rewrite reverse_snoc. simpl.
  destruct (decide_rel elem_of elem (reverse names)) as [Hin|Hin].
  - rewrite decide_True; [reflexivity|].
    rewrite elem_of_reverse, elem_of_remove_dups. exact Hin.
  - rewrite decide_False.
    + rewrite reverse_cons. reflexivity.
    + rewrite elem_of_reverse, elem_of_remove_dups. exact Hin.
Qed.

Lemma elem_of_first_occurrences names k : k ∈ first_occurrences names ↔ k ∈ names.
Proof.
  unfold first_occurrences.
  rewrite elem_of_reverse, elem_of_remove_dups, elem_of_reverse. reflexivity.
Qed.

Lemma NoDup_first_occurrences names : NoDup (first_occurrences names).
Proof.
  unfold first_occurrences. rewrite reverse_Permutation.
  apply NoDup_remove_dups.
Qed.

Lemma Counter_items_keys names : (Counter_items names).*1 = first_occurrences names.
Proof.
  induction names as [|elem names IH] using rev_ind; [reflexivity|].
  rewrite Counter_items_snoc, count_element_keys, first_occurrences_snoc, IH.
  reflexivity.
Qed.

Lemma occurrences_snoc k names elem :
  occurrences k (names ++ [elem]) =
  occurrences k names + (if decide (elem = k) then 1 else 0).
Proof.
  unfold occurrences. rewrite filter_app, length_app.
  rewrite filter_cons, filter_nil.
  destruct (decide (elem = k)); simpl; lia.
Qed.

Lemma occurrences_pos k names : k ∈ names ↔ 1 ≤ occurrences k names.
Proof.
  unfold occurrences. split.
  - intros Hin.
    assert (Hk : k ∈ filter (λ x, x = k) names)
      by (apply list_elem_of_filter; auto).
    destruct (filter (λ x, x = k) names); [inversion Hk | simpl; lia].
  - intros Hle. destruct (filter (λ x, x = k) names) as [|x l] eqn:E;
      [simpl in Hle; lia|].
    assert (Hx : x ∈ filter (λ x, x = k) names)
      by (rewrite E; apply list_elem_of_here).
    apply list_elem_of_filter in Hx as [-> Hin]. exact Hin.
Qed.

(** The items seen as a map: one more for the name that is counted. *)
Lemma count_element_map mapping elem :
  (list_to_map (count_element mapping elem) : gmap string Z) =
  <[elem := default 0 ((list_to_map mapping : gmap string Z) !! elem) + 1]>
    (list_to_map mapping).
Proof.
  induction mapping as [|[k n] rest IH]; simpl.
  - rewrite lookup_empty. reflexivity.
  - destruct (String.eqb_spec k elem) as [->|Hne]; simpl.
    + rewrite lookup_insert_eq. simpl. rewrite insert_insert_eq. reflexivity.
    + rewrite IH, lookup_insert_ne by exact Hne.
      apply insert_insert_ne. congruence.
Qed.

Lemma Counter_items_lookup names k :
  (list_to_map (Counter_items names) : gmap string Z) !! k =
  if decide (k ∈ names) then Some (occurrences k names) else None.
Proof.
  induction names as [|elem names IH] using rev_ind.
  - destruct (decide (k ∈ [])) as [Hin|_]; [inversion Hin | reflexivity].
  - rewrite Counter_items_snoc, count_element_map, occurrences_snoc.
    pose proof (occurrences_pos k names) as Hpos.
    assert (Happ : k ∈ (names ++ [elem])%list ↔ k ∈ names ∨ elem = k).
    { rewrite elem_of_app, list_elem_of_singleton. intuition congruence. }
    destruct (decide (elem = k)) as [->|Hne].
    + rewrite lookup_insert_eq, IH.
      destruct (decide (k ∈ (names ++ [k])%list)) as [_|Hn]; [|tauto].
      assert (0 ≤ occurrences k names) by (unfold occurrences; lia).
      destruct (decide (k ∈ names)) as [Hin|Hin]; simpl; f_equal;
        try (assert (¬ 1 ≤ occurrences k names) by tauto); lia.
    + rewrite lookup_insert_ne, IH by exact Hne.
      destruct (decide (k ∈ names)) as [Hin|Hin];
        destruct (decide (k ∈ (names ++ [elem])%list)) as [Hin'|Hin'];
        try tauto.
      f_equal. lia.
Qed.

Lemma elem_of_Counter_items names k n :
  (k, n) ∈ Counter_items names ↔ k ∈ names ∧ n = occurrences k names.
Proof.
  assert (Hnd : NoDup (Counter_items names).*1)
    by (rewrite Counter_items_keys; apply NoDup_first_occurrences).
  rewrite (elem_of_list_to_map (M := gmap string) _ k n Hnd).
  rewrite Counter_items_lookup.
  destruct (decide (k ∈ names)) as [Hin|Hin]; split.
  - intros [= <-]. auto.
  - intros [_ ->]. reflexivity.
  - discriminate.
  - intros [? _]. contradiction.
Qed.

Lemma sum_values_count_element mapping elem :
  sum_values (count_element mapping elem) = sum_values mapping + 1.
Proof.
  induction mapping as [|[k n] rest IH]; [reflexivity|]. simpl.
  destruct (String.eqb k elem); rewrite !sum_values_cons; simpl; [|rewrite IH]; lia.
Qed.

Lemma sum_values_Counter_items names :
  sum_values (Counter_items names) = Z.of_nat (length names).
Proof.
  induction names as [|elem names IH] using rev_ind; [reflexivity|].
  rewrite Counter_items_snoc, sum_values_count_element, IH, length_app.
  simpl. lia.
Qed.

Lemma with_count_keys (f : string → Z) (v : Z) (items : list (string * Z)) :
  Forall (λ x, x.2 = f x.1) items →
  (with_count v items).*1 = filter (λ k, f k = v) items.*1.
Proof.
  unfold with_count. induction 1 as [|[k n] items Hx _ IH]; [reflexivity|].
  simpl in Hx. subst n. rewrite fmap_cons, !filter_cons. cbn [fst snd].
  destruct (decide (f k = v)); rewrite ?fmap_cons, IH; reflexivity.
Qed.

Lemma Counter_items_values names :
  Forall (λ x, x.2 = occurrences x.1 names) (Counter_items names).
Proof.
  apply Forall_forall. intros [k n] Hin.
  apply elem_of_Counter_items in Hin as [_ ->]. reflexivity.
Qed.

Lemma string_length_app (s1 s2 : string) :
  String.length (s1 +:+ s2) = (String.length s1 + String.length s2)%nat.
Proof. induction s1 as [|a s1 IH]; simpl; [reflexivity | rewrite IH; reflexivity]. Qed.

Lemma string_times_length (s : string) (n : Z) :
  String.length (string_times s n) = (Z.to_nat n * String.length s)%nat.
Proof.
  unfold string_times. generalize (Z.to_nat n). intros k.
  induction k as [|k IH]; [reflexivity|].
  change (Nat.iter (S k) (String.append s) "")
    with (s +:+ Nat.iter k (String.append s) "").
  rewrite string_length_app, IH. simpl. lia.
Qed.

Lemma string_times_nonpos (s : string) (n : Z) : n ≤ 0 → string_times s n = "".
Proof.
  intros Hn. unfold string_times.
  replace (Z.to_nat n) with 0%nat by lia. reflexivity.
Qed.

(** X1: [Counter(user_names)] holds every name of the list exactly once, in
    the order of the names' first places, each with the number of times it
    comes in the list; the counts add up to the length of the list. *)
Theorem Counter_items_counts (names : list string) :
  (Counter_items names).*1 = first_occurrences names ∧
  NoDup (Counter_items names).*1 ∧
  (∀ k n, (k, n) ∈ Counter_items names ↔ k ∈ names ∧ n = occurrences k names) ∧
  sum_values (Counter_items names) = Z.of_nat (length names).
Proof.
  split; [apply Counter_items_keys|].
  split; [rewrite Counter_items_keys; apply NoDup_first_occurrences|].
  split; [intros k n; apply elem_of_Counter_items|].
  apply sum_values_Counter_items.
Qed.

(** X2: when fetching succeeds, [comments] prints the headline and then
    one row per distinct comment author, from the largest number of comments
    to the smallest; a row carries the number of comments of its author
    over all the pull requests, and the numbers add up to the number of
    comments.  Nothing is raised. *)
Theorem comments_table (pull_requests : list CommentedPull) :
  let authors := comment_authors pull_requests in
  ∃ rows,
    comments (inr pull_requests) =
      (String "010"%char "Comment count per user:" :: (comment_row <$> rows), None) ∧
    descending rows ∧
    NoDup rows.*1 ∧
    (∀ k n, (k, n) ∈ rows ↔ k ∈ authors ∧ n = occurrences k authors) ∧
    sum_values rows = Z.of_nat (length authors).
Proof.
  intros authors. exists (most_common authors).
  unfold comments, print_users_with_comment_count.
  rewrite user_names_comment_authors. fold authors.
  split; [reflexivity|]. unfold most_common.
  split; [apply sorted_by_count_descending|].
  split.
  { rewrite (sorted_by_count_perm (Counter_items authors)).
    rewrite Counter_items_keys. apply NoDup_first_occurrences. }
  split.
  { intros k n. rewrite (sorted_by_count_perm (Counter_items authors)).
    apply elem_of_Counter_items. }
  rewrite sum_values_sorted. apply sum_values_Counter_items.
Qed.

(** X3: among the rows of [most_common], authors with the same number of
    comments stand in the order of their first comments. *)
Theorem most_common_ties (names : list string) (v : Z) :
  (with_count v (most_common names)).*1 =
  filter (λ k, occurrences k names = v) (first_occurrences names).
Proof.
  unfold most_common. rewrite with_count_sorted.
  rewrite (with_count_keys (λ k, occurrences k names))
    by apply Counter_items_values.
  rewrite Counter_items_keys. reflexivity.
Qed.

(** X4: a row of the table is the login, a colon, blanks and the count; the
    count starts in column 20 when the login has at most 19 characters,
    and right after the colon, with nothing cut off, when it is longer. *)
Theorem comment_row_layout (item : string * Z) :
  ∃ pad,
    comment_row item = ((item.1 +:+ ":") +:+ pad) +:+ pretty item.2 ∧
    String.length ((item.1 +:+ ":") +:+ pad) =
      Nat.max 20 (S (String.length item.1)) ∧
    pad = string_times " " (19 - Z.of_nat (String.length item.1)) ∧
    (19 ≤ Z.of_nat (String.length item.1) → pad = "").
Proof.
  exists (string_times " " (19 - Z.of_nat (String.length item.1))).
  assert (Hlen : String.length (item.1 +:+ ":") = S (String.length item.1)).
  { rewrite string_length_app. simpl. lia. }
  split.
  { unfold comment_row, ljust. rewrite Hlen.
    replace (20 - Z.of_nat (S (String.length item.1)))
      with (19 - Z.of_nat (String.length item.1)) by lia.
    reflexivity. }
  split.
  { rewrite string_length_app, Hlen, string_times_length. simpl. lia. }
  split; [reflexivity|].
  intros Hge. apply string_times_nonpos. lia.
Qed.

(** ** Totals of counters *)

Lemma counter_total_sum_values (c : Counter) :
  counter_total c = sum_values (map_to_list c).
Proof. reflexivity. Qed.

Lemma sum_values_nonneg {K} (l : list (K * Z)) :
  Forall (λ x, 0 ≤ x.2) l → 0 ≤ sum_values l.
Proof.
  induction 1 as [|x l Hx _ IH]; rewrite ?sum_values_cons; [reflexivity | lia].
Qed.

Lemma sum_values_elem_le {K} (l : list (K * Z)) (x : K * Z) :
  Forall (λ x, 0 ≤ x.2) l → x ∈ l → x.2 ≤ sum_values l.
Proof.
  intros Hl Hin. induction Hl as [|y l Hy Hl IH]; [inversion Hin|].
  rewrite sum_values_cons. pose proof (sum_values_nonneg l Hl).
  apply elem_of_cons in Hin as [->|Hin]; [lia | specialize (IH Hin); lia].
Qed.

Lemma no_negative_entry_items (c : Counter) :
  no_negative_entry c → Forall (λ x, 0 ≤ x.2) (map_to_list c).
Proof.
  intros Hc. apply Forall_forall. intros [k v] Hin.
  apply elem_of_map_to_list in Hin. exact (Hc k v Hin).
Qed.

Lemma counter_total_nonneg (c : Counter) : no_negative_entry c → 0 ≤ counter_total c.
Proof. intros Hc. apply sum_values_nonneg, no_negative_entry_items, Hc. Qed.

Lemma counter_entry_le_total (c : Counter) (u : NamedUser) (v : Z) :
  no_negative_entry c → c !! u = Some v → v ≤ counter_total c.
Proof.
  intros Hc Hu.
  apply (sum_values_elem_le (map_to_list c) (u, v));
    [apply no_negative_entry_items, Hc | apply elem_of_map_to_list, Hu].
Qed.

Lemma counter_total_insert_fresh (c : Counter) (k : NamedUser) (v : Z) :
  c !! k = None → counter_total (<[k := v]> c) = v + counter_total c.
Proof.
  intros Hk. rewrite !counter_total_sum_values.
  rewrite (sum_values_perm _ _ (map_to_list_insert c k v Hk)).
  apply sum_values_cons.
Qed.

Lemma counter_total_insert (c : Counter) (k : NamedUser) (v : Z) :
  counter_total (<[k := v]> c) = counter_total c - default 0 (c !! k) + v.
Proof.
  destruct (c !! k) as [x|] eqn:Hk; simpl.
  - rewrite <- (insert_delete_id c k x Hk) at 2.
    rewrite <- (insert_delete_eq c k v).
    rewrite !counter_total_insert_fresh by apply lookup_delete_eq. lia.
  - rewrite counter_total_insert_fresh by exact Hk. lia.
Qed.

Lemma counter_total_add (c : Counter) (item : NamedUser * Z) :
  counter_total (counter_add c item) = counter_total c + item.2.
Proof. unfold counter_add. rewrite counter_total_insert. lia. Qed.

Lemma counter_total_update_items (c : Counter) (items : list (NamedUser * Z)) :
  counter_total (counter_update_items c items) = counter_total c + sum_values items.
Proof.
  unfold counter_update_items. revert c.
  induction items as [|x items IH]; intros c; simpl.
  - unfold sum_values. simpl. lia.
  - rewrite IH, counter_total_add, sum_values_cons. lia.
Qed.

Lemma counter_total_update_sum (c m : Counter) :
  counter_total (counter_update c m) = counter_total c + counter_total m.
Proof. unfold counter_update. apply counter_total_update_items. Qed.

Lemma counter_total_singleton (u : NamedUser) (w : Z) :
  counter_total ({[ u := w ]} : Counter) = w.
Proof.
  rewrite counter_total_sum_values, map_to_list_singleton.
  unfold sum_values. simpl. lia.
Qed.

Lemma counter_total_gset_to_gmap (w : Z) (X : gset NamedUser) :
  counter_total (gset_to_gmap w X) = w * Z.of_nat (size X).
Proof.
  induction X as [|x X Hx IH] using set_ind_L.
  - rewrite gset_to_gmap_empty, size_empty. unfold counter_total.
    rewrite map_to_list_empty. simpl. lia.
  - rewrite gset_to_gmap_union_singleton.
    rewrite counter_total_insert_fresh
      by (apply lookup_gset_to_gmap_None, Hx).
    rewrite IH, size_union, size_singleton by set_solver. lia.
Qed.

(** ** What the counters of [show] hold *)

Lemma total_weight_cons w p ps :
  total_weight w (p :: ps) = w p + total_weight w ps.
Proof. reflexivity. Qed.

Lemma total_weight_app w ps qs :
  total_weight w (ps ++ qs) = total_weight w ps + total_weight w qs.
Proof.
  induction ps as [|p ps IH]; [reflexivity|].
  rewrite <- app_comm_cons, !total_weight_cons, IH. lia.
Qed.

Lemma total_weight_perm w ps qs :
  ps ≡ₚ qs → total_weight w ps = total_weight w qs.
Proof.
  induction 1 as [|x l l' _ IH|x y l|l l' l'' _ IH1 _ IH2];
    rewrite ?total_weight_cons; [reflexivity | lia | lia | congruence].
Qed.

Lemma tally_default w ps : default 0 (tally w ps) = total_weight w ps.
Proof. destruct ps; reflexivity. Qed.

Lemma tally_snoc w ps p :
  tally w (ps ++ [p]) = Some (w p + default 0 (tally w ps)).
Proof.
  rewrite tally_default.
  assert (E : tally w (ps ++ [p]) = Some (total_weight w (ps ++ [p])))
    by (destruct ps; reflexivity).
  rewrite E, total_weight_app, (total_weight_cons w p []).
  unfold total_weight at 2. simpl. f_equal. lia.
Qed.

Lemma tally_perm w ps qs : ps ≡ₚ qs → tally w ps = tally w qs.
Proof.
  intros Hp. destruct ps as [|p ps].
  - apply Permutation_nil_l in Hp. subst qs. reflexivity.
  - destruct qs as [|q qs]; [apply Permutation_nil_r in Hp; discriminate Hp|].
    unfold tally. f_equal. apply total_weight_perm, Hp.
Qed.

Lemma aggregate_lookup w pull_requests u :
  (aggregate w pull_requests).1 !! u = tally w (reviewed_by u pull_requests) ∧
  (aggregate w pull_requests).2 !! u = tally w (created_by u pull_requests).
Proof.
  induction pull_requests as [|p rest [IH1 IH2]] using rev_ind.
  - split; apply lookup_empty.
  - rewrite aggregate_snoc. unfold process. cbn [fst snd].
    rewrite !lookup_counter_update. unfold updated, reviewed_by, created_by.
    rewrite !filter_app, !filter_cons, !filter_nil. split.
    + destruct (decide (u ∈ reviewer_set p)) as [Hin|Hin].
      * assert (E : extract_reviewers p w !! u = Some (w p))
          by (apply lookup_gset_to_gmap_Some; auto).
        rewrite E, IH1. symmetry. apply tally_snoc.
      * assert (E : extract_reviewers p w !! u = None)
          by (apply lookup_gset_to_gmap_None; auto).
        rewrite E, IH1, app_nil_r. reflexivity.
    + destruct (decide (pr_user p = u)) as [Hu|Hu].
      * rewrite Hu, lookup_singleton_eq, IH2. symmetry. apply tally_snoc.
      * rewrite lookup_singleton_ne, IH2, app_nil_r by exact Hu. reflexivity.
Qed.

Lemma foldr_add_init (z : Z) (l : list Z) :
  foldr Z.add z l = foldr Z.add 0 l + z.
Proof. induction l as [|a l IH]; simpl; [reflexivity | rewrite IH; lia]. Qed.

Lemma aggregate_totals w pull_requests :
  counter_total (aggregate w pull_requests).1 =
    foldr Z.add 0
      ((λ p, w p * Z.of_nat (size (reviewer_set p))) <$> pull_requests) ∧
  counter_total (aggregate w pull_requests).2 = total_weight w pull_requests.
Proof.
  induction pull_requests as [|p rest [IH1 IH2]] using rev_ind.
  - split; reflexivity.
  - rewrite aggregate_snoc. unfold process. cbn [fst snd].
    rewrite !counter_total_update_sum, IH1, IH2, counter_total_singleton.
    unfold extract_reviewers. cbv zeta. rewrite counter_total_gset_to_gmap.
    rewrite total_weight_app, fmap_app, foldr_app. simpl. split.
    + rewrite (foldr_add_init (_ + 0)). lia.
    + unfold total_weight at 3. simpl. lia.
Qed.

(** X5: after the loop of [show], the creator counter has an entry exactly
    for the users who created one of the pull requests, holding the sum of
    the weights of the pull requests they created; the reviewer counter has
    an entry exactly for the users who are a counted reviewer of one of
    them, holding the sum of the weights of those pull requests. *)
Theorem counters_tally (extract_weight : PullRequest → Z)
    (pull_requests : list PullRequest) (u : NamedUser) :
  (aggregate extract_weight pull_requests).2 !! u =
    tally extract_weight (created_by u pull_requests) ∧
  (aggregate extract_weight pull_requests).1 !! u =
    tally extract_weight (reviewed_by u pull_requests).
Proof. destruct (aggregate_lookup extract_weight pull_requests u); auto. Qed.

Lemma total_weight_simple ps :
  total_weight extract_simple ps = Z.of_nat (length ps).
Proof.
  unfold total_weight, extract_simple.
  induction ps as [|p ps IH]; simpl length; [reflexivity|].
  rewrite fmap_cons. cbn [foldr]. rewrite IH. lia.
Qed.

Lemma tally_simple ps n :
  tally extract_simple ps = Some n ↔ n = Z.of_nat (length ps) ∧ 1 ≤ n.
Proof.
  destruct ps as [|p ps].
  - simpl. split; [discriminate | lia].
  - unfold tally. rewrite total_weight_simple. simpl length. split.
    + intros [= <-]. lia.
    + intros [-> _]. reflexivity.
Qed.

(** X6: with weight method simple both rankings count pull requests: a
    creator's value is the number of pull requests they created, a
    reviewer's value the number of pull requests they are a counted
    reviewer of, and no entry is below 1. *)
Theorem simple_mode_counts (pull_requests : list PullRequest) (u : NamedUser)
    (n : Z) :
  ((aggregate (select_weight "simple") pull_requests).2 !! u = Some n ↔
     n = Z.of_nat (length (created_by u pull_requests)) ∧ 1 ≤ n) ∧
  ((aggregate (select_weight "simple") pull_requests).1 !! u = Some n ↔
     n = Z.of_nat (length (reviewed_by u pull_requests)) ∧ 1 ≤ n).
Proof.
  change (select_weight "simple") with extract_simple.
  destruct (aggregate_lookup extract_simple pull_requests u) as [-> ->].
  split; apply tally_simple.
Qed.

(** X7: the total the bars are measured against: for the creators it is
    the sum of the weights of the pull requests, for the reviewers every
    pull request counts its weight once per counted reviewer. *)
Theorem counter_totals (extract_weight : PullRequest → Z)
    (pull_requests : list PullRequest) :
  counter_total (aggregate extract_weight pull_requests).2 =
    total_weight extract_weight pull_requests ∧
  counter_total (aggregate extract_weight pull_requests).1 =
    foldr Z.add 0
      ((λ p, extract_weight p * Z.of_nat (size (reviewer_set p)))
         <$> pull_requests).
Proof. destruct (aggregate_totals extract_weight pull_requests); auto. Qed.

(** X8: the order in which the pull requests come does not change the
    counters. *)
Theorem aggregate_permutation (extract_weight : PullRequest → Z)
    (pull_requests pull_requests' : list PullRequest) :
  pull_requests ≡ₚ pull_requests' →
  aggregate extract_weight pull_requests = aggregate extract_weight pull_requests'.
Proof.
  intros Hp.
  rewrite (surjective_pairing (aggregate extract_weight pull_requests)),
    (surjective_pairing (aggregate extract_weight pull_requests')).
  f_equal; apply map_eq; intros u;
    destruct (aggregate_lookup extract_weight pull_requests u) as [E1 E2];
    destruct (aggregate_lookup extract_weight pull_requests' u) as [E1' E2'];
    rewrite ?E1, ?E2, ?E1', ?E2';
    apply tally_perm; unfold reviewed_by, created_by; rewrite Hp; reflexivity.
Qed.

Lemma aggregate_permutation_witness :
  aggregate extract_complex [Scenario.pr1 0 []; Scenario.pr2 0 []] =
  aggregate extract_complex [Scenario.pr2 0 []; Scenario.pr1 0 []].
Proof.
  apply (aggregate_permutation extract_complex
           [Scenario.pr1 0 []; Scenario.pr2 0 []]
           [Scenario.pr2 0 []; Scenario.pr1 0 []]).
  apply perm_swap.
Defined.

(** X9: [Counter.update] adds up: the total after an update is the old
    total plus the total of the mapping, and two updates give the same
    counter in either order. *)
Theorem counter_update_composes (c m1 m2 : Counter) :
  counter_total (counter_update c m1) = counter_total c + counter_total m1 ∧
  counter_update (counter_update c m1) m2 =
    counter_update (counter_update c m2) m1.
Proof.
  split; [apply counter_total_update_sum|].
  apply map_eq. intros k. rewrite !lookup_counter_update. unfold updated.
  rewrite !lookup_counter_update. unfold updated.
  destruct (m1 !! k) as [v1|], (m2 !! k) as [v2|], (c !! k) as [v|];
    simpl; try reflexivity; f_equal; lia.
Qed.

(** ** The bars of the report *)

Lemma filled_bounds (iteration total length : Z) :
  0 < total → 0 ≤ iteration ≤ total → 0 ≤ length →
  0 ≤ length * iteration / total ≤ length.
Proof.
  intros Ht Hi Hl. split.
  - apply Z.div_pos; nia.
  - apply Z.div_le_upper_bound; nia.
Qed.

Lemma bar_length (filled length : Z) :
  0 ≤ filled ≤ length →
  String.length (string_times "#" filled +:+ string_times "-" (length - filled)) =
  Z.to_nat length.
Proof.
  intros Hf. rewrite string_length_app, !string_times_length. simpl. lia.
Qed.

Lemma print_bar_inr (iteration total : Z) (prefix : string) (length : Z) :
  total ≠ 0 →
  print_bar iteration total prefix length =
  inr (EchoBar prefix
         (string_times "#" (length * iteration / total) +:+
          string_times "-" (length - length * iteration / total))
         (inject_Z (100 * iteration) / inject_Z total)%Q iteration).
Proof.
  intros Ht. unfold print_bar. apply Z.eqb_neq in Ht. rewrite Ht. reflexivity.
Qed.

(** X10: for a value between 0 and a positive total, [print_bar] echoes a
    bar of exactly [length] characters: [length * iteration // total]
    hashes followed by dashes, all hashes when the value is the total; the
    percentage lies between 0 and 100 and the raw value is echoed
    unchanged. *)
Theorem print_bar_shape (iteration total : Z) (prefix : string) (length : Z) :
  0 < total → 0 ≤ iteration ≤ total → 0 ≤ length →
  ∃ filled percent,
    print_bar iteration total prefix length =
      inr (EchoBar prefix
             (string_times "#" filled +:+ string_times "-" (length - filled))
             percent iteration) ∧
    filled = length * iteration / total ∧
    0 ≤ filled ≤ length ∧
    (iteration = total → filled = length) ∧
    String.length
      (string_times "#" filled +:+ string_times "-" (length - filled)) =
      Z.to_nat length ∧
    (0 <= percent)%Q ∧ (percent <= 100)%Q.
Proof.
  intros Ht Hi Hl.
  exists (length * iteration / total),
    (inject_Z (100 * iteration) / inject_Z total)%Q.
  pose proof (filled_bounds iteration total length Ht Hi Hl) as Hf.
  split; [apply print_bar_inr; lia|].
  split; [reflexivity|]. split; [exact Hf|].
  split; [intros ->; apply Z.div_mul; lia|].
  split; [apply bar_length, Hf|].
  assert (Hq : (0 < inject_Z total)%Q).
  { change 0%Q with (inject_Z 0). rewrite <- Zlt_Qlt. exact Ht. }
  split.
  - apply Qle_shift_div_l; [exact Hq|].
    rewrite Qmult_0_l. change 0%Q with (inject_Z 0). rewrite <- Zle_Qle. lia.
  - apply Qle_shift_div_r; [exact Hq|].
    change 100%Q with (inject_Z 100). rewrite <- inject_Z_mult, <- Zle_Qle. lia.
Qed.

Lemma print_bar_shape_witness :
  ∃ filled percent,
    print_bar 1 3 "A" 44 =
      inr (EchoBar "A"
             (string_times "#" filled +:+ string_times "-" (44 - filled))
             percent 1) ∧
    filled = 44 * 1 / 3 ∧
    0 ≤ filled ≤ 44 ∧
    (1 = 3 → filled = 44) ∧
    String.length
      (string_times "#" filled +:+ string_times "-" (44 - filled)) =
      Z.to_nat 44 ∧
    (0 <= percent)%Q ∧ (percent <= 100)%Q.
Proof. apply (print_bar_shape 1 3 "A" 44); lia. Defined.

Lemma print_bars_spec (total_sum : Z) (items : list (NamedUser * Z))
    (log : list echoed) :
  total_sum ≠ 0 →
  ∃ bars,
    print_bars total_sum items log = ((log ++ bars)%list, None) ∧
    echoed_entry <$> bars = (λ it, Some (login it.1, it.2)) <$> items ∧
    (0 < total_sum → Forall (λ it, 0 ≤ it.2 ≤ total_sum) items →
     Forall (λ e, ∀ b, echoed_bar e = Some b → String.length b = 44%nat) bars).
Proof.
  intros Ht. revert log.
  induction items as [|[item i] rest IH]; intros log.
  - exists []. simpl. rewrite app_nil_r. repeat split. constructor.
  - cbn [print_bars]. rewrite print_bar_inr by exact Ht.
    destruct (IH (log ++ [EchoBar (login item)
         (string_times "#" (44 * i / total_sum) +:+
          string_times "-" (44 - 44 * i / total_sum))
         (inject_Z (100 * i) / inject_Z total_sum)%Q i])%list)
      as (bars & E & Hentries & Hlen).
    eexists (_ :: bars). split; [|split].
    + rewrite E, <- app_assoc. reflexivity.
    + rewrite !fmap_cons, Hentries. reflexivity.
    + intros Hpos Hall. apply Forall_cons in Hall as [Hi Hall].
      constructor; [|apply Hlen; assumption].
      intros b [= <-]. simpl in Hi.
      rewrite bar_length by (apply filled_bounds; lia). reflexivity.
Qed.

(** X11: when the values of a counter do not sum to 0, the report is the
    empty line, the headline and one bar per entry of the counter, each
    labelled with the login and the raw value of its entry, from the
    largest value to the smallest; no exception ends it. *)
Theorem display_user_counter_ranking (counter : Counter) (headline : string) :
  counter_total counter ≠ 0 →
  ∃ bars ranking,
    display_user_counter counter headline =
      (([EchoBlank; EchoText headline] ++ bars)%list, None) ∧
    echoed_entry <$> bars = (λ it, Some (login it.1, it.2)) <$> ranking ∧
    ranking ≡ₚ map_to_list counter ∧
    descending ranking ∧
    length bars = size counter.
Proof.
  intros Ht. unfold display_user_counter.
  destruct (print_bars_spec (counter_total counter)
              (sorted_desc (map_to_list counter))
              [EchoBlank; EchoText headline] Ht) as (bars & E & Hentries & _).
  exists bars, (sorted_desc (map_to_list counter)).
  split; [exact E|]. split; [exact Hentries|].
  rewrite sorted_desc_by_count.
  split; [apply sorted_by_count_perm|].
  split; [apply sorted_by_count_descending|].
  rewrite <- (length_fmap echoed_entry), Hentries, length_fmap.
  rewrite sorted_desc_by_count, (sorted_by_count_perm (map_to_list counter)).
  apply length_map_to_list.
Qed.

Lemma display_user_counter_ranking_witness :
  ∃ bars ranking,
    display_user_counter {[ Scenario.A := 15; Scenario.B := 0 ]} "Creators ranking:" =
      (([EchoBlank; EchoText "Creators ranking:"] ++ bars)%list, None) ∧
    echoed_entry <$> bars = (λ it, Some (login it.1, it.2)) <$> ranking ∧
    ranking ≡ₚ map_to_list ({[ Scenario.A := 15; Scenario.B := 0 ]} : Counter) ∧
    descending ranking ∧
    length bars = size ({[ Scenario.A := 15; Scenario.B := 0 ]} : Counter).
Proof.
  apply (display_user_counter_ranking
           {[ Scenario.A := 15; Scenario.B := 0 ]} "Creators ranking:").
  vm_compute. discriminate.
Defined.

(** X12: when no entry of the counter is negative and the values do not
    sum to 0, every bar of the report is exactly 44 characters long. *)
Theorem display_user_counter_bar_width (counter : Counter) (headline : string)
    (e : echoed) (b : string) :
  no_negative_entry counter → counter_total counter ≠ 0 →
  e ∈ (display_user_counter counter headline).1 → echoed_bar e = Some b →
  String.length b = 44%nat.
Proof.
  intros Hc Ht. unfold display_user_counter.
  pose proof (counter_total_nonneg counter Hc) as Hge.
  destruct (print_bars_spec (counter_total counter)
              (sorted_desc (map_to_list counter))
              [EchoBlank; EchoText headline] Ht) as (bars & -> & _ & Hlen).
  cbn [fst]. intros Hin Hb.
  assert (Hall : Forall (λ it : NamedUser * Z, 0 ≤ it.2 ≤ counter_total counter)
                   (sorted_desc (map_to_list counter))).
  { rewrite sorted_desc_by_count, (sorted_by_count_perm (map_to_list counter)).
    apply Forall_forall. intros [u v] Huv. apply elem_of_map_to_list in Huv.
    simpl. split; [exact (Hc u v Huv) | exact (counter_entry_le_total _ u v Hc Huv)]. }
  specialize (Hlen ltac:(lia) Hall).
  apply elem_of_app in Hin as [Hin|Hin].
  - apply elem_of_cons in Hin as [->|Hin]; [discriminate Hb|].
    apply list_elem_of_singleton in Hin as ->. discriminate Hb.
  - rewrite Forall_forall in Hlen. exact (Hlen e Hin b Hb).
Qed.

Lemma display_user_counter_bar_width_witness :
  String.length "############################################" = 44%nat.
Proof.
  apply (display_user_counter_bar_width
           {[ Scenario.A := 15; Scenario.B := 0 ]} "Creators ranking:"
           (EchoBar "A" "############################################"
              (1500 # 15) 15)
           "############################################").
  - intros u v. rewrite lookup_insert_Some, lookup_singleton_Some.
    intros [[_ <-]|[_ [_ <-]]]; lia.
  - vm_compute. discriminate.
  - vm_compute. apply list_elem_of_further, list_elem_of_further, list_elem_of_here.
  - reflexivity.
Defined.

(** ** When the report is cut short *)

Lemma display_raises (counter : Counter) (headline : string) :
  (display_user_counter counter headline).2 = Some ZeroDivisionError ↔
  counter ≠ ∅ ∧ counter_total counter = 0.
Proof.
  split.
  - intros Hr. destruct (decide (counter = ∅)) as [->|Hne].
    + rewrite display_user_counter_empty in Hr. discriminate Hr.
    + split; [exact Hne|].
      destruct (decide (counter_total counter = 0)) as [Ht|Ht]; [exact Ht|].
      rewrite display_user_counter_nonzero_total in Hr by exact Ht.
      discriminate Hr.
  - intros [Hne Ht].
    rewrite display_user_counter_zero_total by assumption. reflexivity.
Qed.

Lemma display_ok_or_raises (counter : Counter) (headline : string) :
  (display_user_counter counter headline).2 = None ∨
  (display_user_counter counter headline).2 = Some ZeroDivisionError.
Proof.
  destruct (display_user_counter counter headline).2 as [[]|]; auto.
Qed.

(** X13: a report is ended by [ZeroDivisionError] exactly when the counter
    has an entry and its values sum to 0; nothing but the empty line and
    the headline is echoed then. *)
Theorem display_user_counter_raises_iff (counter : Counter) (headline : string) :
  ((display_user_counter counter headline).2 = Some ZeroDivisionError ↔
     counter ≠ ∅ ∧ counter_total counter = 0) ∧
  ((display_user_counter counter headline).2 = None ↔
     counter = ∅ ∨ counter_total counter ≠ 0) ∧
  (display_user_counter counter headline =
     ([EchoBlank; EchoText headline], Some ZeroDivisionError) ↔
   (display_user_counter counter headline).2 = Some ZeroDivisionError).
Proof.
  pose proof (display_raises counter headline) as Hr.
  split; [exact Hr|]. split.
  - split.
    + intros Hn. destruct (decide (counter = ∅)) as [|Hne]; [auto|].
      right. intros Ht. rewrite (proj2 Hr) in Hn by auto. discriminate Hn.
    + intros [->|Ht]; [reflexivity|].
      apply display_user_counter_nonzero_total, Ht.
  - split; [intros ->; reflexivity|].
    intros [Hne Ht]%Hr. apply display_user_counter_zero_total; assumption.
Qed.

Lemma show_result (now : nat → datetime) (pull_requests : list PullRequest)
    (label_list : list string) (weight_method younger_than : string) :
  (show now pull_requests label_list weight_method younger_than).2 =
  match (display_user_counter
           (show_counters now pull_requests label_list weight_method younger_than).1
           "Reviewers ranking:").2 with
  | Some e => Some e
  | None =>
      (display_user_counter
         (show_counters now pull_requests label_list weight_method younger_than).2
         "Creators ranking:").2
  end.
Proof.
  unfold show.
  destruct (show_counters now pull_requests label_list weight_method younger_than)
    as [rc cc]. cbn [fst snd].
  destruct (display_user_counter rc "Reviewers ranking:") as [log [e|]];
    [reflexivity|].
  destruct (display_user_counter cc "Creators ranking:") as [log' r].
  reflexivity.
Qed.

Lemma display_ok_positive (counter : Counter) (headline : string) :
  (∀ u v, counter !! u = Some v → 1 ≤ v) →
  (display_user_counter counter headline).2 = None.
Proof.
  intros Hpos.
  destruct (display_ok_or_raises counter headline) as [Hn|Hr]; [exact Hn|].
  apply display_raises in Hr as [Hne Ht].
  apply map_choose in Hne as (u & v & Hu).
  assert (Hc : no_negative_entry counter).
  { intros u' v' Hu'. specialize (Hpos u' v' Hu'). lia. }
  pose proof (counter_entry_le_total counter u v Hc Hu).
  specialize (Hpos u v Hu). lia.
Qed.

(** X14: with weight method simple [show] always completes both reports:
    no choice of pull requests, labels or window leads to
    [ZeroDivisionError]. *)
Theorem show_simple_completes (now : nat → datetime)
    (pull_requests : list PullRequest) (label_list : list string)
    (younger_than : string) :
  (show now pull_requests label_list "simple" younger_than).2 = None.
Proof.
  rewrite show_result. unfold show_counters.
  change (select_weight "simple") with extract_simple.
  set (prs := label_filter label_list (time_filter now 0 pull_requests younger_than)).
  rewrite !display_ok_positive; [reflexivity| |].
  - intros u v Hu.
    destruct (aggregate_lookup extract_simple prs u) as [_ E].
    rewrite E in Hu. apply tally_simple in Hu. lia.
  - intros u v Hu.
    destruct (aggregate_lookup extract_simple prs u) as [E _].
    rewrite E in Hu. apply tally_simple in Hu. lia.
Qed.

Lemma elem_of_time_filter now i pull_requests younger_than p :
  p ∈ time_filter now i pull_requests younger_than → p ∈ pull_requests.
Proof.
  revert i. induction pull_requests as [|q rest IH]; intros i; simpl.
  - intros Hin. exact Hin.
  - destruct (time_condition (now i) q younger_than).
    + rewrite !elem_of_cons. intros [->|Hin]; eauto.
    + intros Hin. apply list_elem_of_further. eauto.
Qed.

Lemma label_filter_filter (label_list : list string)
    (pull_requests : list PullRequest) :
  label_filter label_list pull_requests =
  filter (λ p, (list_to_set label_list : gset string) ⊆ label_names p)
    pull_requests.
Proof.
  destruct label_list as [|l ls].
  - simpl. symmetry. apply filter_all. intros p. set_solver.
  - unfold label_filter. apply list_filter_iff. intros p.
    apply has_labels_spec.
Qed.

Lemma elem_of_label_filter label_list pull_requests p :
  p ∈ label_filter label_list pull_requests → p ∈ pull_requests.
Proof. rewrite label_filter_filter, list_elem_of_filter. tauto. Qed.

Lemma foldr_add_nonneg (l : list Z) :
  Forall (λ z, 0 ≤ z) l → 0 ≤ foldr Z.add 0 l.
Proof. induction 1 as [|z l Hz _ IH]; simpl; lia. Qed.

Lemma foldr_add_zero (l : list Z) :
  Forall (λ z, 0 ≤ z) l → foldr Z.add 0 l = 0 ↔ Forall (λ z, z = 0) l.
Proof.
  induction 1 as [|z l Hz Hl IH]; simpl.
  - split; [constructor | reflexivity].
  - pose proof (foldr_add_nonneg l Hl). split.
    + intros Hs. constructor; [lia | apply IH; lia].
    + intros Hall. apply Forall_cons in Hall as [-> Hall].
      apply IH in Hall. lia.
Qed.

Lemma sum_zero_iff (f : PullRequest → Z) (pull_requests : list PullRequest) :
  (∀ p, p ∈ pull_requests → 0 ≤ f p) →
  foldr Z.add 0 (f <$> pull_requests) = 0 ↔ ∀ p, p ∈ pull_requests → f p = 0.
Proof.
  intros Hf. rewrite foldr_add_zero.
  - rewrite Forall_fmap, Forall_forall. reflexivity.
  - rewrite Forall_fmap, Forall_forall. exact Hf.
Qed.

Lemma tally_None w ps : tally w ps = None ↔ ps = [].
Proof. destruct ps; simpl; split; congruence. Qed.

Lemma creator_counter_nonempty w pull_requests :
  (aggregate w pull_requests).2 ≠ ∅ ↔ pull_requests ≠ [].
Proof.
  split.
  - intros Hne ->. apply Hne. reflexivity.
  - intros Hne Hempty. destruct pull_requests as [|p rest]; [congruence|].
    destruct (aggregate_lookup w (p :: rest) (pr_user p)) as [_ E].
    rewrite Hempty, lookup_empty in E. symmetry in E.
    apply tally_None in E. unfold created_by in E.
    rewrite filter_cons_True in E by reflexivity. discriminate E.
Qed.

Lemma reviewer_counter_nonempty w pull_requests :
  (aggregate w pull_requests).1 ≠ ∅ ↔
  ∃ p, p ∈ pull_requests ∧ reviewer_set p ≠ ∅.
Proof.
  split.
  - intros Hne. apply map_choose in Hne as (u & v & Hu).
    destruct (aggregate_lookup w pull_requests u) as [E _].
    rewrite E in Hu.
    destruct (reviewed_by u pull_requests) as [|p ps] eqn:Hps;
      [discriminate Hu|].
    assert (Hp : p ∈ reviewed_by u pull_requests)
      by (rewrite Hps; apply list_elem_of_here).
    apply list_elem_of_filter in Hp as [Hin Hp].
    exists p. split; [exact Hp | set_solver].
  - intros (p & Hp & Hne) Hempty.
    apply set_choose_L in Hne as [u Hu].
    destruct (aggregate_lookup w pull_requests u) as [E _].
    rewrite Hempty, lookup_empty in E. symmetry in E.
    apply tally_None in E.
    assert (Hin : p ∈ reviewed_by u pull_requests)
      by (apply list_elem_of_filter; auto).
    rewrite E in Hin. inversion Hin.
Qed.

(** X15: with additions and deletions that are not negative, [show] is
    ended by [ZeroDivisionError] exactly in two cases: some pull request
    passes the filters and all that pass have weight 0; or some pull
    request that passes has a counted reviewer and every such pull request
    has weight 0. *)
Theorem show_raises_iff (now : nat → datetime) (pull_requests : list PullRequest)
    (label_list : list string) (weight_method younger_than : string) :
  Forall nonneg_changes pull_requests →
  let kept := label_filter label_list (time_filter now 0 pull_requests younger_than) in
  let extract_weight := select_weight weight_method in
  (show now pull_requests label_list weight_method younger_than).2 =
    Some ZeroDivisionError ↔
  (kept ≠ [] ∧ ∀ p, p ∈ kept → extract_weight p = 0) ∨
  ((∃ p, p ∈ kept ∧ reviewer_set p ≠ ∅) ∧
   ∀ p, p ∈ kept → reviewer_set p ≠ ∅ → extract_weight p = 0).
Proof.
  intros Hall kept w. rewrite show_result. unfold show_counters.
  fold kept. fold w.
  assert (Hw : ∀ p, p ∈ kept → 0 ≤ w p).
  { intros p Hp. apply select_weight_nonneg.
    rewrite Forall_forall in Hall. apply Hall.
    eapply elem_of_time_filter, elem_of_label_filter, Hp. }
  destruct (aggregate_totals w kept) as [Hrt Hct].
  assert (HC : (display_user_counter (aggregate w kept).2 "Creators ranking:").2 =
                 Some ZeroDivisionError ↔
               kept ≠ [] ∧ ∀ p, p ∈ kept → w p = 0).
  { rewrite display_raises, creator_counter_nonempty, Hct.
    unfold total_weight. rewrite (sum_zero_iff w kept Hw). reflexivity. }
  assert (HR : (display_user_counter (aggregate w kept).1 "Reviewers ranking:").2 =
                 Some ZeroDivisionError ↔
               (∃ p, p ∈ kept ∧ reviewer_set p ≠ ∅) ∧
               ∀ p, p ∈ kept → reviewer_set p ≠ ∅ → w p = 0).
  { rewrite display_raises, reviewer_counter_nonempty, Hrt.
    rewrite (sum_zero_iff (λ p, w p * Z.of_nat (size (reviewer_set p))) kept)
      by (intros p Hp; specialize (Hw p Hp); nia).
    split; intros [Hex Hz]; (split; [exact Hex|]).
    - intros p Hp Hne. specialize (Hz p Hp). cbv beta in Hz.
      assert (size (reviewer_set p) ≠ 0%nat)
        by (rewrite size_non_empty_iff; intros E; apply Hne, leibniz_equiv, E).
      nia.
    - intros p Hp. cbv beta.
      destruct (decide (reviewer_set p = ∅)) as [->|Hne];
        [rewrite size_empty; lia | rewrite (Hz p Hp Hne); lia]. }
  destruct (display_ok_or_raises (aggregate w kept).1 "Reviewers ranking:")
    as [Hn|Hr].
  - rewrite Hn, HC. split; [auto|].
    intros [Hc|Hrv]; [exact Hc|].
    apply HR in Hrv. rewrite Hn in Hrv. discriminate Hrv.
  - rewrite Hr. split; [|reflexivity].
    intros _. right. apply HR, Hr.
Qed.

Lemma show_raises_iff_witness :
  let kept := label_filter [] (time_filter (λ _, 0) 0 [Scenario.pr3 0 []] "all") in
  let extract_weight := select_weight "changes" in
  (show (λ _, 0) [Scenario.pr3 0 []] [] "changes" "all").2 =
    Some ZeroDivisionError ↔
  (kept ≠ [] ∧ ∀ p, p ∈ kept → extract_weight p = 0) ∨
  ((∃ p, p ∈ kept ∧ reviewer_set p ≠ ∅) ∧
   ∀ p, p ∈ kept → reviewer_set p ≠ ∅ → extract_weight p = 0).
Proof.
  apply (show_raises_iff (λ _, 0) [Scenario.pr3 0 []] [] "changes" "all").
  constructor; [split; simpl; lia | constructor].
Defined.

(** ** The filters on lists *)

Lemma time_filter_sublist_of now i pull_requests (y1 y2 : string) :
  (∀ t p, time_condition t p y1 = true → time_condition t p y2 = true) →
  time_filter now i pull_requests y1 `sublist_of` time_filter now i pull_requests y2.
Proof.
  intros Himp. revert i.
  induction pull_requests as [|p rest IH]; intros i; simpl; [constructor|].
  destruct (time_condition (now i) p y1) eqn:E1.
  - rewrite (Himp _ _ E1). apply sublist_skip, IH.
  - destruct (time_condition (now i) p y2); [apply sublist_cons|]; apply IH.
Qed.

(** X16: whatever the clock reads while the list is filtered, the pull
    requests kept for week are kept for month, those kept for month are
    kept for year, and those for year are kept for all, which keeps the
    whole list; the order of the pull requests is never changed. *)
Theorem time_filter_widens (now : nat → datetime) (i : nat)
    (pull_requests : list PullRequest) (younger_than : string) :
  time_filter now i pull_requests "week" `sublist_of`
    time_filter now i pull_requests "month" ∧
  time_filter now i pull_requests "month" `sublist_of`
    time_filter now i pull_requests "year" ∧
  time_filter now i pull_requests "year" `sublist_of`
    time_filter now i pull_requests "all" ∧
  time_filter now i pull_requests "all" = pull_requests ∧
  time_filter now i pull_requests younger_than `sublist_of` pull_requests.
Proof.
  assert (Hall : ∀ j, time_filter now j pull_requests "all" = pull_requests).
  { induction pull_requests as [|p rest IH]; intros j; simpl;
      [reflexivity | f_equal; apply IH]. }
  split; [|split; [|split; [|split]]].
  - apply time_filter_sublist_of. intros t p.
    apply younger_than_delta_mono. unfold timedelta_days. lia.
  - apply time_filter_sublist_of. intros t p.
    apply younger_than_delta_mono. unfold timedelta_days. lia.
  - apply time_filter_sublist_of. reflexivity.
  - apply Hall.
  - rewrite <- (Hall i) at 2. apply time_filter_sublist_of. reflexivity.
Qed.

(** X17: a pull request can leave a window as the clock moves on, never
    enter one: if the filter accepts it at some reading of the clock, it
    accepts it at every earlier reading. *)
Theorem time_condition_earlier (now now' : datetime) (pull_request : PullRequest)
    (condition : string) :
  now ≤ now' →
  time_condition now' pull_request condition = true →
  time_condition now pull_request condition = true.
Proof.
  intros Hle. unfold time_condition.
  destruct (String.eqb condition "all"); [reflexivity|].
  destruct (String.eqb condition "week");
    [rewrite !younger_than_delta_spec; lia|].
  destruct (String.eqb condition "month");
    [rewrite !younger_than_delta_spec; lia|].
  destruct (String.eqb condition "year");
    [rewrite !younger_than_delta_spec; lia|].
  discriminate.
Qed.

Lemma time_condition_earlier_witness :
  time_condition (timedelta_days 10) (Scenario.pr1 (timedelta_days 9) []) "week" = true.
Proof.
  apply (time_condition_earlier (timedelta_days 10) (timedelta_days 12)).
  - unfold timedelta_days. lia.
  - vm_compute. reflexivity.
Defined.

(** X18: requiring the labels of two lists at once is filtering by one
    list and then by the other, so it keeps no more than either alone; the
    order of the required labels and their repetition do not matter. *)
Theorem label_filter_composes (l1 l2 : list string)
    (pull_requests : list PullRequest) :
  label_filter (l1 ++ l2) pull_requests =
    label_filter l1 (label_filter l2 pull_requests) ∧
  label_filter (l1 ++ l2) pull_requests = label_filter (l2 ++ l1) pull_requests ∧
  label_filter (l1 ++ l1) pull_requests = label_filter l1 pull_requests ∧
  label_filter (l1 ++ l2) pull_requests `sublist_of` label_filter l1 pull_requests.
Proof.
  assert (Hcomp : ∀ a b, label_filter (a ++ b) pull_requests =
                         label_filter a (label_filter b pull_requests)).
  { intros a b. rewrite !label_filter_filter, list_filter_filter.
    apply list_filter_iff. intros p. rewrite list_to_set_app_L. set_solver. }
  assert (Hset : ∀ a b, (list_to_set a : gset string) = list_to_set b →
                        label_filter a pull_requests = label_filter b pull_requests).
  { intros a b E. rewrite !label_filter_filter, E. reflexivity. }
  split; [apply Hcomp|]. split; [|split].
  - apply Hset. rewrite !list_to_set_app_L. set_solver.
  - apply Hset. rewrite !list_to_set_app_L. set_solver.
  - rewrite (Hset (l1 ++ l2)%list (l2 ++ l1)%list)
      by (rewrite !list_to_set_app_L; set_solver).
    rewrite Hcomp, (label_filter_filter l2 (label_filter l1 pull_requests)).
    apply sublist_filter.
Qed.

Lemma time_filter_fixed_clock (now : datetime) (i : nat)
    (pull_requests : list PullRequest) (younger_than : string) :
  time_filter (λ _, now) i pull_requests younger_than =
  filter (λ p, time_condition now p younger_than = true) pull_requests.
Proof.
  revert i. induction pull_requests as [|p rest IH]; intros i; simpl;
    [reflexivity|].
  rewrite filter_cons, IH.
  destruct (time_condition now p younger_than) eqn:E.
  - rewrite decide_True by reflexivity. reflexivity.
  - rewrite decide_False by discriminate. reflexivity.
Qed.

(** X19: when the clock does not move while the list is filtered, the
    counters of [show] are those of the loop over exactly the pull requests
    that carry every required label and pass the time filter, in their
    order; the other pull requests add nothing. *)
Theorem show_counters_kept (now : datetime) (pull_requests : list PullRequest)
    (label_list : list string) (weight_method younger_than : string) :
  show_counters (λ _, now) pull_requests label_list weight_method younger_than =
  aggregate (select_weight weight_method)
    (filter (λ p, (list_to_set label_list : gset string) ⊆ label_names p ∧
                  time_condition now p younger_than = true)
       pull_requests).
Proof.
  unfold show_counters.
  rewrite time_filter_fixed_clock, label_filter_filter, list_filter_filter.
  reflexivity.
Qed.
